(** * DAPHNE distributed runtime: MPI helper and the AggAll kernel

    A shallow embedding of
    - [src/runtime/distributed/worker/MPIHelper.h]: the binary codec of
      [MPIHelper::Task], the acknowledgement parser [constructStoredInfo] and
      the tagged point-to-point sends of [distributeWithTag];
    - [src/runtime/local/kernels/AggAll.h]: full aggregation of a dense and of
      a CSR matrix.

    C++ functions become functions into [outcome]: a call returns a value,
    throws an exception, or touches memory outside an allocation (undefined
    behaviour, kept apart from exceptions). *)

From Stdlib Require Import String ZArith NArith List Lia Bool.
From Stdlib Require Import Floats.PrimFloat Numbers.Cyclic.Int63.Uint63.
From Stdlib Require Strings.Byte.
From Equations Require Import Equations.
From Equations.Prop Require Import Logic.
From coqutil Require Import Byte Word.LittleEndianList.
Import ListNotations.

Set Implicit Arguments.

(** ** Outcomes of a C++ call *)

Inductive exception : Type :=
| out_of_range                   (* std::out_of_range, from std::vector::at *)
| runtime_error (what : string)  (* std::runtime_error and its message *)
| length_error                   (* std::length_error, from resize *)
| bad_alloc                      (* std::bad_alloc, from the allocator *)
| logic_error (what : string).   (* std::logic_error and its message *)

Inductive outcome (A : Type) : Type :=
| Returns (a : A)
| Throws (e : exception)
| OutOfBounds.
(* [OutOfBounds]: the call read or wrote outside the storage it was given.
   Nothing in the sources checks for it; in C++ it is undefined behaviour. *)

Arguments Returns {A} a.
Arguments Throws {A} e.
Arguments OutOfBounds {A}.

Definition bind {A B : Type} (m : outcome A) (k : A -> outcome B) : outcome B :=
  match m with
  | Returns a => k a
  | Throws e => Throws e
  | OutOfBounds => OutOfBounds
  end.

Notation "x <- m ;; k" := (bind m (fun x => k))
  (at level 61, m at next level, right associativity).
Notation "' p <- m ;; k" := (bind m (fun x => let p := x in k))
  (at level 61, p pattern, m at next level, right associativity).

(** [for (i = first; n iterations; i++) s = body(i, s)] *)
Fixpoint for_range {S : Type} (i n : nat) (body : nat -> S -> outcome S) (s : S)
  : outcome S :=
  match n with
  | O => Returns s
  | Datatypes.S n' => s' <- body i s ;; for_range (Datatypes.S i) n' body s'
  end.

(** [for (auto &x : xs) s = body(x, s)] *)
Fixpoint for_each {X S : Type} (xs : list X) (body : X -> S -> outcome S) (s : S)
  : outcome S :=
  match xs with
  | [] => Returns s
  | x :: xs' => s' <- body x s ;; for_each xs' body s'
  end.

(** ** Characters, strings and [size_t] *)

(** [std::string]: a sequence of [char]s, embedded NULs allowed. *)
Definition std_string : Type := list byte.

Definition literal (s : string) : std_string := list_byte_of_string s.

(** [size_t] is 64 bits wide on the platforms the runtime targets. *)
Definition SIZE_MAX : N := 2 ^ 64 - 1.
Definition sizeof_size_t : nat := 8.

(** The object representation of a [size_t] (little endian), as
    [std::copy(reinterpret_cast<char*>(&x), ... + sizeof(x), out)] reads it:
    the eight bytes of [n mod 2^64]. *)
Definition bytes_of_size_t (n : N) : list byte := le_split sizeof_size_t (Z.of_N n).

(** ... and as [std::copy(in, in + sizeof(x), reinterpret_cast<char*>(&x))]
    stores it. *)
Definition size_t_of_bytes (bs : list byte) : N := Z.to_N (le_combine bs).

(** ** MPIHelper.h *)

Module MPIHelper.

Definition COORDINATOR : Z := 0.

Inductive TypesOfMessages : Type :=
| BROADCAST | DATASIZE | DATA | DATAACK | MLIRSIZE | MLIR | INPUTKEYS
| OUTPUT | OUTPUTKEY | DETACH | OBJECTIDENTIFIERSIZE | OBJECTIDENTIFIER.

(** The enumerators' values: [BROADCAST=0] and counting up. *)
Definition tag_of (t : TypesOfMessages) : Z :=
  match t with
  | BROADCAST => 0 | DATASIZE => 1 | DATA => 2 | DATAACK => 3
  | MLIRSIZE => 4 | MLIR => 5 | INPUTKEYS => 6 | OUTPUT => 7
  | OUTPUTKEY => 8 | DETACH => 9 | OBJECTIDENTIFIERSIZE => 10
  | OBJECTIDENTIFIER => 11
  end%Z.

(** *** WorkerImpl::StoredInfo *)

(** Modelled from the spec: [WorkerImpl.h], which declares
    [WorkerImpl::StoredInfo], is not among the sources.  The spec's
    DataHandleDescriptor is {identifier: string, numRows: unsigned integer,
    numCols: unsigned integer}; MPIHelper.h uses exactly these three
    members, the two counts through [%zu] and [sizeof], as [size_t]. *)
Record StoredInfo : Type := {
  identifier : std_string;
  numRows : N;
  numCols : N
}.

(** *** constructStoredInfo *)

(** [std::stringstream]: the characters not yet extracted and the two state
    bits the loop can set. *)
Record stringstream : Type := {
  unread : list byte;
  eofbit : bool;
  failbit : bool
}.

Definition stringstream_of (input : std_string) : stringstream :=
  {| unread := input; eofbit := false; failbit := false |}.

Definition good (s : stringstream) : bool := negb (eofbit s) && negb (failbit s).

(** Characters up to the delimiter.  [Some rest]: the delimiter was found
    and extracted, [rest] follows it.  [None]: the input ended first. *)
Fixpoint extract_until (delim : byte) (cs : list byte)
  : std_string * option (list byte) :=
  match cs with
  | [] => ([], None)
  | c :: rest =>
      if Byte.eqb c delim then ([], Some rest)
      else let (str, r) := extract_until delim rest in (c :: str, r)
  end.

(** [std::getline(s, str, delim)] on a stream that is [good]: [str] gets the
    characters before the delimiter; reaching the end of the input sets
    [eofbit], and [failbit] too when nothing at all was extracted. *)
Definition getline (s : stringstream) (delim : byte) : std_string * stringstream :=
  match extract_until delim (unread s) with
  | (str, Some rest) =>
      (str, {| unread := rest; eofbit := eofbit s; failbit := failbit s |})
  | (str, None) =>
      (str, {| unread := [];
               eofbit := true;
               failbit := match str with [] => true | _ => failbit s end |})
  end.

Definition comma : byte := Byte.x2c.

(** What is left for the loop to do: nothing once the stream is not good. *)
Definition pending (s : stringstream) : nat :=
  if good s then S (length (unread s)) else 0.

Lemma extract_until_shorter (delim : byte) (cs : list byte) :
  forall str rest, extract_until delim cs = (str, Some rest) ->
                   length rest < length cs.
Proof.
  induction cs as [|c cs IH]; simpl; intros str rest E; [discriminate|].
  destruct (Byte.eqb c delim).
  - injection E as _ <-. lia.
  - destruct (extract_until delim cs) as [str' r] eqn:E'.
    injection E as _ ->. specialize (IH _ _ eq_refl). lia.
Defined.

Lemma getline_pending (s : stringstream) (delim : byte) :
  good s = true -> pending (snd (getline s delim)) < pending s.
Proof.
  intros G. unfold pending at 2. rewrite G.
  unfold getline.
  destruct (extract_until delim (unread s)) as [str [rest|]] eqn:E; simpl.
  - apply extract_until_shorter in E. unfold pending.
    destruct (good _); simpl; lia.
  - unfold pending, good. simpl. lia.
Defined.

(** [while (s_stream.good()) { getline(s_stream, substr, ','); results.push_back(substr); }] *)
Equations read_fields (s_stream : stringstream) (results : list std_string)
  : list std_string by wf (pending s_stream) lt :=
  read_fields s_stream results with inspect (good s_stream) := {
    | exist _ true G =>
        read_fields (snd (getline s_stream comma))
                    (results ++ [fst (getline s_stream comma)])
    | exist _ false _ => results }.
Next Obligation. apply getline_pending. assumption. Defined.

(** [sscanf(str, "%zu", &x)], the C library's conversion of an unsigned
    decimal: leading white space is skipped, one sign is accepted, then at
    least one digit must follow or nothing is stored; the digits are read
    as far as they go and anything after them is left alone.  As
    [strtoull] does, a value past [SIZE_MAX] is stored as [SIZE_MAX] and a
    leading [-] negates modulo [2^64].  The call's return value is not
    looked at by the caller, so the model gives what [x] holds afterwards,
    [old] being what it held before. *)
Definition isspace (c : byte) : bool :=
  let n := Byte.to_N c in
  ((n =? 32) || ((9 <=? n) && (n <=? 13)))%N.

Definition digit_of (c : byte) : option N :=
  let n := Byte.to_N c in
  if ((48 <=? n) && (n <=? 57))%N then Some (n - 48)%N else None.

Fixpoint skip_spaces (cs : list byte) : list byte :=
  match cs with
  | c :: cs' => if isspace c then skip_spaces cs' else cs
  | [] => []
  end.

Fixpoint read_digits (cs : list byte) (acc : N) : N :=
  match cs with
  | c :: cs' =>
      match digit_of c with
      | Some d => read_digits cs' (acc * 10 + d)%N
      | None => acc
      end
  | [] => acc
  end.

Definition plus_sign : byte := Byte.x2b.
Definition minus_sign : byte := Byte.x2d.

Definition sscanf_zu (str : std_string) (old : N) : N :=
  let cs := skip_spaces str in
  let '(negative, cs) :=
    match cs with
    | c :: cs' =>
        if Byte.eqb c plus_sign then (false, cs')
        else if Byte.eqb c minus_sign then (true, cs')
        else (false, cs)
    | [] => (false, cs)
    end in
  match cs with
  | c :: _ =>
      match digit_of c with
      | Some _ =>
          let v := read_digits cs 0 in
          if (SIZE_MAX <? v)%N then SIZE_MAX
          else if negative then ((2 ^ 64 - v) mod 2 ^ 64)%N
          else v
      | None => old
      end
  | [] => old
  end.

(** [results.at(n)] *)
Definition at_ {A : Type} (v : list A) (n : nat) : outcome A :=
  match nth_error v n with
  | Some x => Returns x
  | None => Throws out_of_range
  end.

(** [info] is the function's local [WorkerImpl::StoredInfo info;] as its
    declaration leaves it: whatever its two counts hold then is what an
    [sscanf] that converts nothing leaves in them. *)
Definition constructStoredInfo (info : StoredInfo) (input : std_string)
  : outcome StoredInfo :=
  let s_stream := stringstream_of input in
  let results := read_fields s_stream [] in
  r0 <- at_ results 0 ;;
  let info := {| identifier := r0; numRows := numRows info; numCols := numCols info |} in
  r1 <- at_ results 1 ;;
  let info := {| identifier := identifier info;
                 numRows := sscanf_zu r1 (numRows info);
                 numCols := numCols info |} in
  r2 <- at_ results 2 ;;
  let info := {| identifier := identifier info;
                 numRows := numRows info;
                 numCols := sscanf_zu r2 (numCols info) |} in
  Returns info.

(** *** Task *)

Record Task : Type := {
  mlir_code : std_string;
  inputs : list StoredInfo
}.

(** [struct Header { size_t mlir_code_len; size_t num_inputs; }], packed. *)
Definition sizeof_Header : nat := sizeof_size_t + sizeof_size_t.

(** [std::vector<char>]: its size and the storage it has allocated; the
    capacity is the length of the storage.  Both codec functions go through
    [begin()] and [data()] only, that is through the storage. *)
Record vector_char : Type := {
  vec_size : nat;
  storage : list byte
}.

Definition capacity (v : vector_char) : nat := length (storage v).

Definition empty_vector : vector_char := {| vec_size := 0; storage := [] |}.

(** A vector that holds exactly [bs]. *)
Definition vector_of (bs : list byte) : vector_char :=
  {| vec_size := length bs; storage := bs |}.

(** [buffer.reserve(n)]: nothing when the capacity suffices; otherwise new
    storage of [n] bytes that keeps the [size()] elements.  The size does
    not change.  Fresh bytes are indeterminate in C++; they are zero here. *)
Definition reserve (n : nat) (v : vector_char) : vector_char :=
  if capacity v <? n
  then {| vec_size := vec_size v;
          storage := firstn (vec_size v) (storage v)
                       ++ repeat Byte.x00 (n - vec_size v) |}
  else v.

(** [std::copy(src, src + len, buffer.begin() + bufIdx)] *)
Definition copy_in (src : list byte) (bufIdx : nat) (v : vector_char)
  : outcome vector_char :=
  if bufIdx + length src <=? capacity v
  then Returns {| vec_size := vec_size v;
                  storage := firstn bufIdx (storage v) ++ src
                               ++ skipn (bufIdx + length src) (storage v) |}
  else OutOfBounds.

(** [std::copy(buffer.begin() + bufIdx, buffer.begin() + bufIdx + len, dst)] *)
Definition copy_out (v : vector_char) (bufIdx len : nat) : outcome (list byte) :=
  if bufIdx + len <=? capacity v
  then Returns (firstn len (skipn bufIdx (storage v)))
  else OutOfBounds.

Section Codec.

(** [sizeof(StoredInfo)]: fixed by the declaration in [WorkerImpl.h] and
    by the C++ library's [std::string], neither among the sources. *)
Variable sizeof_StoredInfo : nat.

Definition sizeInBytes (t : Task) : nat :=
  let len := 0 in
  let len := len + sizeof_Header in
  let len := len + length (mlir_code t) in
  let len := len + sizeof_StoredInfo * length (inputs t) in
  len.

Definition serialize (t : Task) (buffer : vector_char) : outcome vector_char :=
  let h_mlir_code_len := N.of_nat (length (mlir_code t)) in
  let h_num_inputs := N.of_nat (length (inputs t)) in
  let buffer := reserve (sizeInBytes t) buffer in
  let bufIdx := 0 in
  buffer <- copy_in (bytes_of_size_t h_mlir_code_len ++ bytes_of_size_t h_num_inputs)
                    bufIdx buffer ;;
  let bufIdx := bufIdx + sizeof_Header in
  buffer <- copy_in (mlir_code t) bufIdx buffer ;;
  let bufIdx := bufIdx + length (mlir_code t) in
  '(buffer, bufIdx) <-
    for_each (inputs t)
      (fun inp '(buffer, bufIdx) =>
         let strLen := length (identifier inp) in
         buffer <- copy_in (bytes_of_size_t (N.of_nat strLen)) bufIdx buffer ;;
         let bufIdx := bufIdx + sizeof_size_t in
         buffer <- copy_in (identifier inp) bufIdx buffer ;;
         let bufIdx := bufIdx + strLen in
         buffer <- copy_in (bytes_of_size_t (numRows inp)) bufIdx buffer ;;
         let bufIdx := bufIdx + sizeof_size_t in
         buffer <- copy_in (bytes_of_size_t (numCols inp)) bufIdx buffer ;;
         let bufIdx := bufIdx + sizeof_size_t in
         Returns (buffer, bufIdx))
      (buffer, bufIdx) ;;
  Returns buffer.

End Codec.

(** *** Resizing a string or a vector *)

(** What [resize(n)] answers is not the program's to say.  Above the
    container's [max_size()], which the C++ library fixes, it throws
    std::length_error; below it the allocator may refuse the storage, which
    is std::bad_alloc.  Whether a request is granted is taken to depend on
    its size alone. *)
Record Memory : Type := {
  string_max_size : N;           (* std::string::max_size() *)
  vector_max_size : N;           (* std::vector<StoredInfo>::max_size() *)
  string_allocates : N -> bool;  (* a string of so many chars is granted *)
  vector_allocates : N -> bool   (* a vector of so many StoredInfo is granted *)
}.

(** [s.resize(n)] for a [std::string s]; what the string then holds is
    written by the copy that follows. *)
Definition string_resize (mem : Memory) (n : N) : outcome unit :=
  if (string_max_size mem <? n)%N then Throws length_error
  else if string_allocates mem n then Returns tt
  else Throws bad_alloc.

(** [v.resize(n)] for a [std::vector<StoredInfo> v]. *)
Definition vector_resize (mem : Memory) (n : N) : outcome unit :=
  if (vector_max_size mem <? n)%N then Throws length_error
  else if vector_allocates mem n then Returns tt
  else Throws bad_alloc.

(** One round of [for (auto &inp : inputs)] in [deserialize], [n] rounds to
    go; the result is the inputs read and where [bufIdx] stands. *)
Fixpoint deserialize_inputs (mem : Memory) (n : nat) (buffer : vector_char)
         (bufIdx : nat) : outcome (list StoredInfo) :=
  match n with
  | O => Returns []
  | S n' =>
      b <- copy_out buffer bufIdx sizeof_size_t ;;
      let strLen := size_t_of_bytes b in
      let bufIdx := bufIdx + sizeof_size_t in
      'tt <- string_resize mem strLen ;;
      let strLen := N.to_nat strLen in
      ident <- copy_out buffer bufIdx strLen ;;
      let bufIdx := bufIdx + strLen in
      b <- copy_out buffer bufIdx sizeof_size_t ;;
      let rows := size_t_of_bytes b in
      let bufIdx := bufIdx + sizeof_size_t in
      b <- copy_out buffer bufIdx sizeof_size_t ;;
      let cols := size_t_of_bytes b in
      let bufIdx := bufIdx + sizeof_size_t in
      rest <- deserialize_inputs mem n' buffer bufIdx ;;
      Returns ({| identifier := ident; numRows := rows; numCols := cols |} :: rest)
  end.

(** The Task that [this] is after [deserialize(buffer)]: both members are
    resized to the lengths the header gives and then overwritten in full,
    so nothing of what [this] held before is left.  Each [resize] comes
    before the copy it makes room for, and can throw. *)
Definition deserialize (mem : Memory) (buffer : vector_char) : outcome Task :=
  b <- copy_out buffer 0 sizeof_size_t ;;
  let mlir_code_len := size_t_of_bytes b in
  b <- copy_out buffer sizeof_size_t sizeof_size_t ;;
  let num_inputs := size_t_of_bytes b in
  let bufIdx := 0 in
  let bufIdx := bufIdx + sizeof_Header in
  'tt <- string_resize mem mlir_code_len ;;
  let mlir_code_len := N.to_nat mlir_code_len in
  code <- copy_out buffer bufIdx mlir_code_len ;;
  let bufIdx := bufIdx + mlir_code_len in
  'tt <- vector_resize mem num_inputs ;;
  let num_inputs := N.to_nat num_inputs in
  inps <- deserialize_inputs mem num_inputs buffer bufIdx ;;
  Returns {| mlir_code := code; inputs := inps |}.

(** *** Point-to-point sends *)

Inductive MPI_Datatype : Type := MPI_INT | MPI_UNSIGNED_CHAR | MPI_CHAR.

(** What a send is given to read from: the address of a local [int], or the
    caller's [void *data]. *)
Inductive send_buffer : Type :=
| address_of_int (value : Z)
| data_pointer (data : list byte).

(** One call [MPI_Send(buf, count, datatype, dest, tag, MPI_COMM_WORLD)]. *)
Record MPI_Send : Type := {
  buf : send_buffer;
  count : Z;
  datatype : MPI_Datatype;
  dest : Z;
  tag : Z
}.

(** [int message = messageLength;]: a [size_t] narrowed to a 32-bit [int]. *)
Definition int_of_size_t (n : N) : Z :=
  ((Z.of_N n + 2 ^ 31) mod 2 ^ 32 - 2 ^ 31)%Z.

(** The sends are appended to [sent], the calls made so far. *)
Definition distributeWithTag (tag : TypesOfMessages) (messageLength : N)
           (data : list byte) (rank : Z) (sent : list MPI_Send) : list MPI_Send :=
  if (rank =? COORDINATOR)%Z then sent
  else
    let message := int_of_size_t messageLength in
    let sizeTag := (-1)%Z in
    let dataTag := (-1)%Z in
    let '(sizeTag, dataTag) :=
      match tag with
      | DATA => (tag_of DATASIZE, tag_of DATA)
      | MLIR => (tag_of MLIRSIZE, tag_of MLIR) (* no break: falls into default *)
      | _ => (sizeTag, dataTag)
      end in
    sent ++ [ {| buf := address_of_int message; count := 1; datatype := MPI_INT;
                 dest := rank; tag := sizeTag |};
              {| buf := data_pointer data; count := message;
                 datatype := MPI_UNSIGNED_CHAR; dest := rank; tag := dataTag |} ].

Definition distributeData (messageLength : N) (data : list byte) (rank : Z)
           (sent : list MPI_Send) : list MPI_Send :=
  distributeWithTag DATA messageLength data rank sent.

Definition distributeTask (messageLength : N) (data : list byte) (rank : Z)
           (sent : list MPI_Send) : list MPI_Send :=
  distributeWithTag MLIR messageLength data rank sent.

(** *** Size announcements and the collective broadcast *)

(** A call into MPI that sends: a point-to-point send, or
    [MPI_Bcast(buffer, count, datatype, root, MPI_COMM_WORLD)]. *)
Inductive MPI_call : Type :=
| call_MPI_Send (s : MPI_Send)
| call_MPI_Bcast (buffer : send_buffer) (count : Z) (datatype : MPI_Datatype) (root : Z).

(** The values [rank] takes in [for (int rank = 0; rank < worldSize; rank++)]. *)
Definition ranks_below (worldSize : Z) : list Z :=
  map Z.of_nat (seq 0 (Z.to_nat worldSize)).

(** [worldSize] is what [getCommSize()] returns, the size MPI reports for
    [MPI_COMM_WORLD]; the calls are appended to [calls]. *)
Definition sendData (worldSize : Z) (messageLength : N) (data : list byte)
           (calls : list MPI_call) : list MPI_call :=
  let message := int_of_size_t messageLength in
  let calls :=
    fold_left
      (fun calls rank =>
         if (rank =? COORDINATOR)%Z then calls
         else calls ++ [ call_MPI_Send
                           {| buf := address_of_int message; count := 1;
                              datatype := MPI_INT; dest := rank;
                              tag := tag_of BROADCAST |} ])
      (ranks_below worldSize) calls in
  calls ++ [ call_MPI_Bcast (data_pointer data) message MPI_UNSIGNED_CHAR COORDINATOR ].

(** *** sendObjectIdentifier *)

(** An [int] after an arithmetic step: 32 bits, two's complement. *)
Definition int_wrap (z : Z) : Z := ((z + 2 ^ 31) mod 2 ^ 32 - 2 ^ 31)%Z.

(** [s.c_str()] as a C function reads it: the characters before the first
    NUL of the string, all of them when it has none. *)
Fixpoint c_str (s : std_string) : list byte :=
  match s with
  | [] => []
  | c :: rest => if Byte.eqb c Byte.x00 then [] else c :: c_str rest
  end.

(** [char message[len];]: [len] bytes whose contents are indeterminate.
    They are the first [len] bytes of [indeterminate], with zeros after
    them should it be shorter; no bytes at all for a [len] that is not
    positive. *)
Definition char_array (len : Z) (indeterminate : list byte) : vector_char :=
  let n := Z.to_nat len in
  {| vec_size := n;
     storage := firstn n (indeterminate ++ repeat Byte.x00 n) |}.

Definition sendObjectIdentifier (indeterminate : list byte) (identifier : std_string)
           (rank : Z) (sent : list MPI_Send) : outcome (list MPI_Send) :=
  let len := int_of_size_t (N.of_nat (length identifier)) in
  let len := int_wrap (len + 1) in
  let sent := sent ++ [ {| buf := address_of_int len; count := 1; datatype := MPI_INT;
                           dest := rank; tag := tag_of OBJECTIDENTIFIERSIZE |} ] in
  let message := char_array len indeterminate in
  (* std::strcpy(message, identifier.c_str()) *)
  message <- copy_in (c_str identifier ++ [Byte.x00]) 0 message ;;
  (* message[len - 1] = '\0' *)
  message <- copy_in [Byte.x00] (Z.to_nat (len - 1)) message ;;
  Returns (sent ++ [ {| buf := data_pointer (storage message); count := len;
                        datatype := MPI_CHAR; dest := rank;
                        tag := tag_of OBJECTIDENTIFIER |} ]).

(** *** Receiving *)

(** A message on its way to this process: who sent it, under which tag, and
    its bytes. *)
Record envelope : Type := {
  env_source : Z;
  env_tag : Z;
  env_payload : list byte
}.

Definition sizeof_datatype (type : MPI_Datatype) : nat :=
  match type with
  | MPI_INT => 4
  | MPI_UNSIGNED_CHAR | MPI_CHAR => 1
  end.

(** [MPI_Get_count(&status, type, &size)] for the message a probe found: how
    many elements of [type] it holds.  A message is received as the type it
    was sent as, so it holds whole elements. *)
Definition MPI_Get_count (probed : envelope) (type : MPI_Datatype) : nat :=
  length (env_payload probed) / sizeof_datatype type.

(** [MPI_Recv(data.data(), count, type, ...)] of that message: its [count]
    elements are written to the start of the vector's storage. *)
Definition MPI_Recv (data : vector_char) (count : nat) (type : MPI_Datatype)
           (message : envelope) : outcome vector_char :=
  copy_in (firstn (count * sizeof_datatype type) (env_payload message)) 0 data.

(** In the three functions below [probed] is the message that [MPI_Probe]
    reports for the source and tag asked for, and that the [MPI_Recv] after
    it receives; which message that is lies with MPI.  The results are what
    the call leaves in [*rank], [data] and [*len]. *)
Definition getMessage (probed : envelope) (type : MPI_Datatype) (data : vector_char)
  : outcome (Z * vector_char * nat) :=
  let size := MPI_Get_count probed type in
  let rank := env_source probed in
  let data :=
    match type with
    | MPI_UNSIGNED_CHAR => reserve (size * 1) data
    | MPI_CHAR => reserve (size * 1) data
    | MPI_INT => data
    end in
  data <- MPI_Recv data size type probed ;;
  let len := size in
  Returns (rank, data, len).

Definition getMessageFrom (probed : envelope) (type : MPI_Datatype) (data : vector_char)
  : outcome (vector_char * nat) :=
  let size := MPI_Get_count probed type in
  let data :=
    match type with
    | MPI_UNSIGNED_CHAR => reserve (size * 1) data
    | MPI_CHAR => reserve (size * 1) data
    | MPI_INT => data
    end in
  data <- MPI_Recv data size type probed ;;
  let len := size in
  Returns (data, len).





End MPIHelper.

(** ** AggAll.h *)

(** The execution context [DCTX(ctx)]: handed on to every binary function,
    never looked into by the kernel. *)
Inductive DaphneContext : Type := daphne_context.

(** Modelled from the spec: [AggOpCode.h] is not among the sources.  The
    spec's ReductionOperation is a variant over the pure binary reductions
    (sum, min, max, product) and the derived operations (mean,
    standard-deviation); AggAll.h itself names SUM, MEAN and STDDEV. *)
Module AggOpCode.
Inductive t : Type := SUM | PROD | MIN | MAX | MEAN | STDDEV.

Definition eqb (a b : t) : bool :=
  match a, b with
  | SUM, SUM | PROD, PROD | MIN, MIN | MAX, MAX | MEAN, MEAN | STDDEV, STDDEV => true
  | _, _ => false
  end.
End AggOpCode.

(** Modelled from the spec: [BinaryOpCode.h] is not among the sources; these
    are the binary operations the pure reductions combine with. *)
Module BinaryOpCode.
Inductive t : Type := ADD | MUL | MIN | MAX.
End BinaryOpCode.

(** What the kernel asks of a value type [VT] (the template parameter
    [VTRes]): the conversions of the literals 0 and 1, [+], [*], [<], the
    two ends of its range, and [v / n] for a [size_t n]. *)
Class ValueType (VT : Type) : Type := {
  vt_zero : VT;
  vt_one : VT;
  vt_add : VT -> VT -> VT;
  vt_mul : VT -> VT -> VT;
  vt_less : VT -> VT -> bool;
  vt_highest : VT;
  vt_lowest : VT;
  vt_div_size_t : VT -> N -> VT
}.

(** [static_cast<VTRes>(x)] for [x] of type [VTArg]. *)
Class StaticCast (VTArg VTRes : Type) : Type := static_cast : VTArg -> VTRes.

#[export] Instance StaticCast_same (VT : Type) : StaticCast VT VT := fun x => x.

(** [double]: IEEE 754 binary64, round to nearest even. *)
Module double.

(** A [size_t] converted to [double].  The hardware conversion takes a
    signed 64-bit integer; from [2^63] on, the value is halved with its
    lowest bit kept sticky, converted, and doubled. *)
Definition of_size_t (n : N) : float :=
  if (n <? 2 ^ 63)%N
  then PrimFloat.of_uint63 (Uint63.of_Z (Z.of_N n))
  else PrimFloat.mul
         (PrimFloat.of_uint63
            (Uint63.of_Z (Z.of_N (N.lor (N.shiftr n 1) (N.land n 1)))))
         (PrimFloat.of_uint63 2%uint63).

#[export] Instance ValueType_double : ValueType float := {
  vt_zero := PrimFloat.zero;
  vt_one := PrimFloat.one;
  vt_add := PrimFloat.add;
  vt_mul := PrimFloat.mul;
  vt_less := PrimFloat.ltb;
  vt_highest := PrimFloat.infinity;
  vt_lowest := PrimFloat.neg_infinity;
  vt_div_size_t := fun v n => PrimFloat.div v (of_size_t n)
}.

End double.

(** Modelled from the spec: [AggOpCode.h] is not among the sources.  Each
    pure reduction carries a neutral element, a binary combining function
    and a sparse-safety flag (combining with an implicit zero changes the
    result for min, max and product, not for sum); the neutral element is 0
    for sum and +infinity for min.  A derived operation (mean,
    standard-deviation) is no binary reduction and carries none of these. *)
Module AggOpCodeUtils.

Definition isPureBinaryReduction (opCode : AggOpCode.t) : bool :=
  match opCode with
  | AggOpCode.SUM | AggOpCode.PROD | AggOpCode.MIN | AggOpCode.MAX => true
  | AggOpCode.MEAN | AggOpCode.STDDEV => false
  end.

Definition isSparseSafe (opCode : AggOpCode.t) : bool :=
  match opCode with
  | AggOpCode.SUM => true
  | _ => false
  end.

Definition getBinaryOpCode (opCode : AggOpCode.t) : outcome BinaryOpCode.t :=
  match opCode with
  | AggOpCode.SUM => Returns BinaryOpCode.ADD
  | AggOpCode.PROD => Returns BinaryOpCode.MUL
  | AggOpCode.MIN => Returns BinaryOpCode.MIN
  | AggOpCode.MAX => Returns BinaryOpCode.MAX
  | AggOpCode.MEAN | AggOpCode.STDDEV =>
      Throws (runtime_error "the aggregation is not a pure binary reduction")
  end.

Definition getNeutral {VT : Type} `{ValueType VT} (opCode : AggOpCode.t) : outcome VT :=
  match opCode with
  | AggOpCode.SUM => Returns vt_zero
  | AggOpCode.PROD => Returns vt_one
  | AggOpCode.MIN => Returns vt_highest
  | AggOpCode.MAX => Returns vt_lowest
  | AggOpCode.MEAN | AggOpCode.STDDEV =>
      Throws (runtime_error "the aggregation has no neutral element")
  end.

End AggOpCodeUtils.

(** [EwBinaryScaFuncPtr<VT, VT, VT>] *)
Definition EwBinaryScaFuncPtr (VT : Type) : Type := VT -> VT -> DaphneContext -> VT.

(** Modelled from the spec: [EwBinarySca.h] is not among the sources.  The
    function resolved for a binary op-code: sum adds, product multiplies,
    min and max are [std::min] and [std::max] of the two operands. *)
Definition getEwBinaryScaFuncPtr {VT : Type} `{ValueType VT} (opCode : BinaryOpCode.t)
  : EwBinaryScaFuncPtr VT :=
  match opCode with
  | BinaryOpCode.ADD => fun lhs rhs _ => vt_add lhs rhs
  | BinaryOpCode.MUL => fun lhs rhs _ => vt_mul lhs rhs
  | BinaryOpCode.MIN => fun lhs rhs _ => if vt_less rhs lhs then rhs else lhs
  | BinaryOpCode.MAX => fun lhs rhs _ => if vt_less lhs rhs then rhs else lhs
  end.

(** Modelled from the spec: [DenseMatrix.h] is not among the sources.  The
    matrix handle exposes row count, column count and the raw value pointer
    with its row stride; [getValues] is the memory that pointer leads into. *)
Module DenseMatrix.
Record t (VT : Type) : Type := {
  getNumRows : nat;
  getNumCols : nat;
  getRowSkip : nat;
  getValues : list VT
}.
End DenseMatrix.

(** Modelled from the spec: [CSRMatrix.h] is not among the sources.  The
    matrix handle exposes row count, column count, the non-zero count and
    the array of stored values, [getValues0] standing for [getValues(0)]. *)
Module CSRMatrix.
Record t (VT : Type) : Type := {
  getNumRows : nat;
  getNumCols : nat;
  getNumNonZeros : nat;
  getValues0 : list VT
}.
End CSRMatrix.

(** [p[i]] for a pointer [p] to the start of [values]. *)
Definition load {VT : Type} (values : list VT) (i : nat) : outcome VT :=
  match nth_error values i with
  | Some x => Returns x
  | None => OutOfBounds
  end.

(** A product of two [size_t]. *)
Definition size_t_mul (a b : nat) : N := ((N.of_nat a * N.of_nat b) mod 2 ^ 64)%N.

Import AggOpCodeUtils.

(** [AggAll<VTRes, DenseMatrix<VTArg>>] *)
Module AggAll_DenseMatrix.
Section Kernel.
Context {VTArg VTRes : Type} `{ValueType VTRes} `{StaticCast VTArg VTRes}.

Definition apply (opCode : AggOpCode.t) (arg : DenseMatrix.t VTArg)
           (ctx : DaphneContext) : outcome VTRes :=
  let numRows := DenseMatrix.getNumRows arg in
  let numCols := DenseMatrix.getNumCols arg in
  (* valuesArg: how far the pointer stands from arg->getValues() *)
  let valuesArg := 0 in
  '(func, agg) <-
    (if isPureBinaryReduction opCode
     then op <- getBinaryOpCode opCode ;;
          neutral <- getNeutral opCode ;;
          Returns (getEwBinaryScaFuncPtr op, neutral)
     else op <- getBinaryOpCode AggOpCode.SUM ;;
          Returns (getEwBinaryScaFuncPtr op, vt_zero)) ;;
  '(agg, valuesArg) <-
    for_range 0 numRows
      (fun r '(agg, valuesArg) =>
         agg <- for_range 0 numCols
                  (fun c agg =>
                     x <- load (DenseMatrix.getValues arg) (valuesArg + c) ;;
                     Returns (func agg (static_cast x) ctx))
                  agg ;;
         Returns (agg, valuesArg + DenseMatrix.getRowSkip arg))
      (agg, valuesArg) ;;
  if isPureBinaryReduction opCode then Returns agg
  else if AggOpCode.eqb opCode AggOpCode.MEAN
  then Returns (vt_div_size_t agg
                  (size_t_mul (DenseMatrix.getNumCols arg) (DenseMatrix.getNumRows arg)))
  else Throws (runtime_error "unsupported AggOpCode in AggAll for DenseMatrix").

End Kernel.
End AggAll_DenseMatrix.

(** [AggAll<VTRes, CSRMatrix<VTArg>>] *)
Module AggAll_CSRMatrix.
Section Kernel.
Context {VTArg VTRes : Type} `{ValueType VTRes} `{StaticCast VTArg VTRes}.

Definition aggArray (values : list VTArg) (numNonZeros : nat) (numCells : N)
           (func : EwBinaryScaFuncPtr VTRes) (isSparseSafe : bool)
           (neutral : VTRes) (ctx : DaphneContext) : outcome VTRes :=
  if negb (numNonZeros =? 0) then
    v0 <- load values 0 ;;
    let agg := static_cast v0 in
    agg <- for_range 1 (numNonZeros - 1)
             (fun i agg =>
                x <- load values i ;;
                Returns (func agg (static_cast x) ctx))
             agg ;;
    let agg :=
      if negb isSparseSafe && (N.of_nat numNonZeros <? numCells)%N
      then func agg vt_zero ctx
      else agg in
    Returns agg
  else
    Returns (func neutral vt_zero ctx).

Definition apply (opCode : AggOpCode.t) (arg : CSRMatrix.t VTArg)
           (ctx : DaphneContext) : outcome VTRes :=
  if isPureBinaryReduction opCode then
    op <- getBinaryOpCode opCode ;;
    let func := getEwBinaryScaFuncPtr op in
    neutral <- getNeutral opCode ;;
    aggArray (CSRMatrix.getValues0 arg)
             (CSRMatrix.getNumNonZeros arg)
             (size_t_mul (CSRMatrix.getNumRows arg) (CSRMatrix.getNumCols arg))
             func
             (isSparseSafe opCode)
             neutral
             ctx
  else
    op <- getBinaryOpCode AggOpCode.SUM ;;
    let func := getEwBinaryScaFuncPtr op in
    agg <- aggArray (CSRMatrix.getValues0 arg)
                    (CSRMatrix.getNumNonZeros arg)
                    (size_t_mul (CSRMatrix.getNumRows arg) (CSRMatrix.getNumCols arg))
                    func
                    true
                    vt_zero
                    ctx ;;
    if AggOpCode.eqb opCode AggOpCode.MEAN
    then Returns (vt_div_size_t agg
                    (size_t_mul (CSRMatrix.getNumRows arg) (CSRMatrix.getNumCols arg)))
    else Throws (runtime_error "unsupported AggOpCode in AggAll for CSRMatrix").

End Kernel.
End AggAll_CSRMatrix.

(** * Notions of the specification

    What the properties below are stated with: the fields of a text, the
    cells of a matrix, the wire layout of a Task, and the inputs of the
    spec's examples. *)

Import MPIHelper.
Import double.

(** ** Tagged sends *)

(** The two sends of [distributeWithTag] under a pair of tags. *)
Definition tagged_sends (messageLength : N) (data : list byte) (rank : Z)
           (sizeTag dataTag : Z) : list MPI_Send :=
  [ {| buf := address_of_int (int_of_size_t messageLength); count := 1;
       datatype := MPI_INT; dest := rank; tag := sizeTag |};
    {| buf := data_pointer data; count := int_of_size_t messageLength;
       datatype := MPI_UNSIGNED_CHAR; dest := rank; tag := dataTag |} ].

(** A payload of 4 GiB: its length is [2^32]. *)
Definition payload_4GiB : list byte := repeat Byte.x00 (N.to_nat (2 ^ 32)).

(** The size message [sendData] sends to one rank. *)
Definition announce (message : Z) (rank : Z) : MPI_call :=
  call_MPI_Send {| buf := address_of_int message; count := 1; datatype := MPI_INT;
                   dest := rank; tag := tag_of BROADCAST |}.

(** A payload of 2 GiB: its length is [2^31]. *)
Definition payload_2GiB : list byte := repeat Byte.x00 (N.to_nat (2 ^ 31)).

(** ** The acknowledgement parser *)

(** The comma-delimited fields of a text, empty ones included: one more
    than there are commas. *)
Fixpoint fields (cs : list byte) : list std_string :=
  match cs with
  | [] => [[]]
  | c :: rest =>
      if Byte.eqb c comma then [] :: fields rest
      else match fields rest with
           | f :: fs => (c :: f) :: fs
           | [] => [[c]]
           end
  end.

Definition commas (cs : list byte) : nat :=
  length (filter (fun c => Byte.eqb c comma) cs).

(** The decimal digit [d] as a character. *)
Definition digit_char (d : N) : byte :=
  match d with
  | 0 => Byte.x30 | 1 => Byte.x31 | 2 => Byte.x32 | 3 => Byte.x33 | 4 => Byte.x34
  | 5 => Byte.x35 | 6 => Byte.x36 | 7 => Byte.x37 | 8 => Byte.x38 | _ => Byte.x39
  end%N.

(** The decimal numeral of [n], at most [digits] digits of it. *)
Fixpoint decimal_digits (digits : nat) (n : N) : list byte :=
  match digits with
  | O => []
  | S digits' =>
      if (n <? 10)%N then [digit_char n]
      else decimal_digits digits' (n / 10) ++ [digit_char (n mod 10)]
  end.

(** The decimal numeral of a [size_t]: 20 digits hold every value. *)
Definition decimal (n : N) : list byte := decimal_digits 20 n.

(** The acknowledgement text of a descriptor:
    [<identifier>,<numRows>,<numCols>]. *)
Definition acknowledgement (info : StoredInfo) : std_string :=
  identifier info ++ comma :: decimal (numRows info) ++ comma :: decimal (numCols info).

(** ** Aggregation kernels *)

(** The row-major cells of a dense matrix: of each row the first
    [getNumCols] values, rows being [getRowSkip] apart. *)
Definition dense_row {VT : Type} (arg : DenseMatrix.t VT) (r : nat) : list VT :=
  firstn (DenseMatrix.getNumCols arg)
         (skipn (r * DenseMatrix.getRowSkip arg) (DenseMatrix.getValues arg)).

Definition dense_cells {VT : Type} (arg : DenseMatrix.t VT) : list VT :=
  flat_map (dense_row arg) (seq 0 (DenseMatrix.getNumRows arg)).

(** Every row of the matrix lies within the memory behind [getValues]. *)
Definition dense_valid {VT : Type} (arg : DenseMatrix.t VT) : Prop :=
  forall r, r < DenseMatrix.getNumRows arg ->
            r * DenseMatrix.getRowSkip arg + DenseMatrix.getNumCols arg
            <= length (DenseMatrix.getValues arg).

(** The stored values of a CSR matrix: the first [getNumNonZeros] of the
    value array, which has to hold that many. *)
Definition csr_stored {VT : Type} (arg : CSRMatrix.t VT) : list VT :=
  firstn (CSRMatrix.getNumNonZeros arg) (CSRMatrix.getValues0 arg).

Definition csr_valid {VT : Type} (arg : CSRMatrix.t VT) : Prop :=
  CSRMatrix.getNumNonZeros arg <= length (CSRMatrix.getValues0 arg).

(** The cell count as the kernel computes it, [numRows * numCols] in
    [size_t]: the product of the two counts modulo [2^64]. *)
Definition csr_cells {VT : Type} (arg : CSRMatrix.t VT) : N :=
  size_t_mul (CSRMatrix.getNumRows arg) (CSRMatrix.getNumCols arg).

(** The number of cells the matrix has: rows times columns. *)
Definition csr_total_cells {VT : Type} (arg : CSRMatrix.t VT) : N :=
  (N.of_nat (CSRMatrix.getNumRows arg) * N.of_nat (CSRMatrix.getNumCols arg))%N.

(** The matrices of the spec's examples, over [double]. *)
Definition dense_2x3 : DenseMatrix.t float :=
  {| DenseMatrix.getNumRows := 2; DenseMatrix.getNumCols := 3;
     DenseMatrix.getRowSkip := 3;
     DenseMatrix.getValues := [1; 2; 3; 4; 5; 6]%float |}.

Definition csr_10_cells : CSRMatrix.t float :=
  {| CSRMatrix.getNumRows := 2; CSRMatrix.getNumCols := 5;
     CSRMatrix.getNumNonZeros := 3;
     CSRMatrix.getValues0 := [5; -2; 5]%float |}.

Definition csr_all_zero : CSRMatrix.t float :=
  {| CSRMatrix.getNumRows := 2; CSRMatrix.getNumCols := 2;
     CSRMatrix.getNumNonZeros := 0;
     CSRMatrix.getValues0 := [] |}.

(** A CSR matrix of [2^16] rows and [2^48] columns, [2^64] cells in all,
    that stores the one value -3. *)
Definition csr_2p64_cells : CSRMatrix.t float :=
  {| CSRMatrix.getNumRows := N.to_nat (2 ^ 16);
     CSRMatrix.getNumCols := N.to_nat (2 ^ 48);
     CSRMatrix.getNumNonZeros := 1;
     CSRMatrix.getValues0 := [(-3)%float] |}.

(** The 2x3 matrix of the example with a row stride of 5 and padding. *)
Definition dense_2x3_padded : DenseMatrix.t float :=
  {| DenseMatrix.getNumRows := 2; DenseMatrix.getNumCols := 3;
     DenseMatrix.getRowSkip := 5;
     DenseMatrix.getValues := [1; 2; 3; 77; 88; 4; 5; 6]%float |}.

(** A 2x3 matrix whose values stop after five cells. *)
Definition dense_2x3_short : DenseMatrix.t float :=
  {| DenseMatrix.getNumRows := 2; DenseMatrix.getNumCols := 3;
     DenseMatrix.getRowSkip := 3;
     DenseMatrix.getValues := [1; 2; 3; 4; 5]%float |}.

(** A CSR matrix that announces three non-zeros and holds two values. *)
Definition csr_short : CSRMatrix.t float :=
  {| CSRMatrix.getNumRows := 2; CSRMatrix.getNumCols := 5;
     CSRMatrix.getNumNonZeros := 3;
     CSRMatrix.getValues0 := [5; -2]%float |}.

(** One step of every loop of the kernels. *)
Definition combine {VTArg VTRes : Type} `{StaticCast VTArg VTRes}
           (ctx : DaphneContext) (func : EwBinaryScaFuncPtr VTRes)
           (agg : VTRes) (x : VTArg) : VTRes :=
  func agg (static_cast x) ctx.

(** ** The Task codec *)

(** The wire layout of the spec, section 4.1: the two header fields, the
    code bytes, then per input the identifier's length, the identifier and
    the two counts. *)
Definition wire_input (inp : StoredInfo) : list byte :=
  bytes_of_size_t (N.of_nat (length (identifier inp)))
    ++ identifier inp
    ++ bytes_of_size_t (numRows inp)
    ++ bytes_of_size_t (numCols inp).

Definition wire_layout (t : Task) : list byte :=
  bytes_of_size_t (N.of_nat (length (mlir_code t)))
    ++ bytes_of_size_t (N.of_nat (length (inputs t)))
    ++ mlir_code t
    ++ flat_map wire_input (inputs t).

(** The size the spec asks [sizeInBytes] to have. *)
Definition wire_size (t : Task) : nat :=
  sizeof_Header + length (mlir_code t)
  + list_sum (map (fun inp => length (identifier inp) + 3 * sizeof_size_t) (inputs t)).

(** What the C++ types guarantee of a Task: every length and count is a
    [size_t]. *)
Definition is_size_t (n : N) : Prop := (n <= SIZE_MAX)%N.

Definition wf_input (inp : StoredInfo) : Prop :=
  is_size_t (N.of_nat (length (identifier inp)))
  /\ is_size_t (numRows inp) /\ is_size_t (numCols inp).

Definition wf_task (t : Task) : Prop :=
  is_size_t (N.of_nat (length (mlir_code t)))
  /\ is_size_t (N.of_nat (length (inputs t)))
  /\ Forall wf_input (inputs t).

(** The Task's strings and its vector can be had from [mem]: none is longer
    than [max_size()] and the allocator grants each, so that every [resize]
    that [deserialize] makes for this Task succeeds. *)
Definition holds_string (mem : Memory) (s : std_string) : Prop :=
  string_resize mem (N.of_nat (length s)) = Returns tt.

Definition allocatable (mem : Memory) (t : Task) : Prop :=
  holds_string mem (mlir_code t)
  /\ vector_resize mem (N.of_nat (length (inputs t))) = Returns tt
  /\ Forall (fun inp => holds_string mem (identifier inp)) (inputs t).

(** A memory without limits of its own: [max_size()] is [SIZE_MAX] and every
    request is granted. *)
Definition unlimited : Memory :=
  {| string_max_size := SIZE_MAX; vector_max_size := SIZE_MAX;
     string_allocates := fun _ => true; vector_allocates := fun _ => true |}.

(** The memory of the examples: the [max_size()] values of libstdc++ on
    x86-64, [(PTRDIFF_MAX - 1) / 2] for a string and
    [PTRDIFF_MAX / sizeof(StoredInfo)] for the vector with a StoredInfo of
    48 bytes, and an allocator that grants up to 1 GiB. *)
Definition libstdcxx : Memory :=
  {| string_max_size := (2 ^ 63 - 2) / 2;
     vector_max_size := (2 ^ 63 - 1) / 48;
     string_allocates := fun n => (n <=? 2 ^ 30)%N;
     vector_allocates := fun n => (n * 48 <=? 2 ^ 30)%N |}.

(** The Tasks of the examples: one line of code and one input. *)
Definition task_m1 : Task :=
  {| mlir_code := literal "x";
     inputs := [ {| identifier := literal "m1"; numRows := 10; numCols := 20 |} ] |}.

Definition task_m12 : Task :=
  {| mlir_code := literal "x";
     inputs := [ {| identifier := literal "m12"; numRows := 10; numCols := 20 |} ] |}.

Definition task_long_identifier : Task :=
  {| mlir_code := literal "x";
     inputs := [ {| identifier := literal "distributed_matrix_block_0001";
                    numRows := 10; numCols := 20 |} ] |}.

(** * Properties *)

(** ** Tagged sends *)

Section TaggedSends.

Variables (messageLength : N) (data : list byte) (rank : Z) (sent : list MPI_Send).

Lemma int_of_size_t_fits : (messageLength < 2 ^ 31)%N ->
  int_of_size_t messageLength = Z.of_N messageLength.
Proof.
  intros Hfit. unfold int_of_size_t.
  assert (0 <= Z.of_N messageLength < 2 ^ 31)%Z by lia.
  rewrite Z.mod_small by lia. lia.
Qed.

Lemma distributeWithTag_coordinator (category : TypesOfMessages) :
  distributeWithTag category messageLength data COORDINATOR sent = sent.
Proof. reflexivity. Qed.

(** What the switch leaves in [sizeTag] and [dataTag]. *)
Lemma distributeWithTag_worker (category : TypesOfMessages) :
  rank <> COORDINATOR ->
  distributeWithTag category messageLength data rank sent =
    let message := int_of_size_t messageLength in
    let tags :=
      match category with
      | DATA => (1, 2)
      | MLIR => (4, 5)
      | _ => (-1, -1)
      end%Z in
    sent ++ [ {| buf := address_of_int message; count := 1; datatype := MPI_INT;
                 dest := rank; tag := fst tags |};
              {| buf := data_pointer data; count := message;
                 datatype := MPI_UNSIGNED_CHAR; dest := rank; tag := snd tags |} ].
Proof.
  intros Hrank. unfold distributeWithTag.
  destruct (Z.eqb_spec rank COORDINATOR) as [E|_]; [contradiction|].
  destruct category; reflexivity.
Qed.

End TaggedSends.

Lemma payload_4GiB_length : N.of_nat (length payload_4GiB) = (2 ^ 32)%N.
Proof. unfold payload_4GiB. rewrite repeat_length. apply N2Nat.id. Qed.

(** C9, as stated, fails: for a payload of [2^32] bytes sent to rank 1 the
    length message carries 0 and the payload message is given the count 0,
    so neither the payload's length nor the payload is sent. *)
Lemma distributeData_4GiB_sends_nothing_of_it :
  N.of_nat (length payload_4GiB) = (2 ^ 32)%N /\
  distributeData (2 ^ 32) payload_4GiB 1 [] =
    [ {| buf := address_of_int 0; count := 1; datatype := MPI_INT;
         dest := 1; tag := tag_of DATASIZE |};
      {| buf := data_pointer payload_4GiB; count := 0;
         datatype := MPI_UNSIGNED_CHAR; dest := 1; tag := tag_of DATA |} ].
Proof.
  split; [exact payload_4GiB_length|].
  unfold distributeData.
  rewrite distributeWithTag_worker by discriminate.
  reflexivity.
Qed.

(** C9, amended: for every payload whose length fits a 32-bit [int] (below
    [2^31]) and every destination rank, [distributeData] and
    [distributeTask] send nothing when the destination is the coordinator,
    and otherwise exactly two messages to that destination, in this order:
    the payload length as one [MPI_INT] under the category's size tag
    (DATASIZE, MLIRSIZE), then the payload, counted in bytes, under the
    category's data tag (DATA, MLIR). *)
Theorem distributeWithTag_two_sends
  (messageLength : N) (data : list byte) (rank : Z) (sent : list MPI_Send) :
  (messageLength < 2 ^ 31)%N ->
  let len := Z.of_N messageLength in
  let sends (sizeTag dataTag : TypesOfMessages) :=
    if (rank =? COORDINATOR)%Z then sent
    else sent ++ [ {| buf := address_of_int len; count := 1; datatype := MPI_INT;
                      dest := rank; tag := tag_of sizeTag |};
                   {| buf := data_pointer data; count := len;
                      datatype := MPI_UNSIGNED_CHAR; dest := rank;
                      tag := tag_of dataTag |} ] in
  distributeData messageLength data rank sent = sends DATASIZE DATA /\
  distributeTask messageLength data rank sent = sends MLIRSIZE MLIR.
Proof.
  intros Hfit len sends. subst sends len.
  unfold distributeData, distributeTask.
  destruct (Z.eqb_spec rank COORDINATOR) as [->|Hrank].
  - split; apply distributeWithTag_coordinator.
  - rewrite !distributeWithTag_worker by assumption.
    cbv zeta. rewrite int_of_size_t_fits by assumption.
    split; reflexivity.
Qed.

Lemma distributeWithTag_two_sends_witness :
  distributeData 3 [Byte.x61; Byte.x62; Byte.x63] 2 [] =
    [ {| buf := address_of_int 3; count := 1; datatype := MPI_INT;
         dest := 2; tag := 1 |};
      {| buf := data_pointer [Byte.x61; Byte.x62; Byte.x63]; count := 3;
         datatype := MPI_UNSIGNED_CHAR; dest := 2; tag := 2 |} ].
Proof.
  apply (distributeWithTag_two_sends (messageLength := 3)
           [Byte.x61; Byte.x62; Byte.x63] 2 []).
  reflexivity.
Defined.

(** C10: the switch of [distributeWithTag] sets the tags for DATA and MLIR
    and for no other category.  To every destination that is not the
    coordinator the two messages go out under the tags (DATASIZE, DATA) =
    (1, 2) for DATA and (MLIRSIZE, MLIR) = (4, 5) for MLIR, and for every
    other category both go out with tag -1. *)
Theorem distributeWithTag_other_category
  (category : TypesOfMessages) (messageLength : N) (data : list byte) (rank : Z)
  (sent : list MPI_Send) :
  rank <> COORDINATOR ->
  distributeWithTag DATA messageLength data rank sent
    = sent ++ tagged_sends messageLength data rank (tag_of DATASIZE) (tag_of DATA)
  /\ distributeWithTag MLIR messageLength data rank sent
    = sent ++ tagged_sends messageLength data rank (tag_of MLIRSIZE) (tag_of MLIR)
  /\ (category <> DATA -> category <> MLIR ->
      distributeWithTag category messageLength data rank sent
      = sent ++ tagged_sends messageLength data rank (-1) (-1))
  /\ tag_of DATASIZE = 1%Z /\ tag_of DATA = 2%Z
  /\ tag_of MLIRSIZE = 4%Z /\ tag_of MLIR = 5%Z.
Proof.
  intros Hrank.
  rewrite !distributeWithTag_worker by assumption.
  split; [reflexivity|]. split; [reflexivity|]. split; [|now repeat split].
  intros HD HM. destruct category; try reflexivity; contradiction.
Qed.

Lemma distributeWithTag_other_category_witness :
  distributeWithTag DATA 2 [Byte.x6f; Byte.x6b] 3 []
    = tagged_sends 2 [Byte.x6f; Byte.x6b] 3 1 2
  /\ distributeWithTag MLIR 2 [Byte.x6f; Byte.x6b] 3 []
    = tagged_sends 2 [Byte.x6f; Byte.x6b] 3 4 5
  /\ distributeWithTag DATAACK 2 [Byte.x6f; Byte.x6b] 3 []
    = tagged_sends 2 [Byte.x6f; Byte.x6b] 3 (-1) (-1).
Proof.
  destruct (@distributeWithTag_other_category DATAACK 2 [Byte.x6f; Byte.x6b] 3 [])
    as (HD & HM & HO & _); [discriminate|].
  split; [exact HD|]. split; [exact HM|]. apply HO; discriminate.
Defined.

(** ** The acknowledgement parser *)

Section Parser.

Lemma read_fields_unfold (s : stringstream) (results : list std_string) :
  read_fields s results =
    if good s
    then read_fields (snd (getline s comma)) (results ++ [fst (getline s comma)])
    else results.
Proof.
  assert (K : forall b (e : good s = b),
             read_fields_unfold_clause_1 s (exist _ b e) results =
               if b
               then read_fields (snd (getline s comma))
                                (results ++ [fst (getline s comma)])
               else results)
    by (intros [] e; reflexivity).
  rewrite read_fields_equation_1. unfold inspect. apply K.
Qed.

Lemma fields_extract_until (cs : list byte) :
  fields cs =
    match extract_until comma cs with
    | (str, Some rest) => str :: fields rest
    | (str, None) => [str]
    end.
Proof.
  induction cs as [|c cs IH]; simpl; [reflexivity|].
  destruct (Byte.eqb c comma); [reflexivity|].
  rewrite IH. destruct (extract_until comma cs) as [str [rest|]]; reflexivity.
Qed.

Lemma fields_length (cs : list byte) : length (fields cs) = S (commas cs).
Proof.
  unfold commas. induction cs as [|c cs IH]; simpl; [reflexivity|].
  destruct (Byte.eqb c comma); simpl; [congruence|].
  destruct (fields cs); simpl in *; lia.
Qed.

(** The loop pushes the fields of what is unread, in order. *)
Lemma read_fields_good (n : nat) :
  forall (s : stringstream) (results : list std_string),
    length (unread s) < n -> good s = true ->
    read_fields s results = results ++ fields (unread s).
Proof.
  induction n as [|n IH]; intros s results Hn G; [lia|].
  rewrite read_fields_unfold, G.
  rewrite (fields_extract_until (unread s)).
  unfold getline.
  destruct (extract_until comma (unread s)) as [str [rest|]] eqn:E; simpl.
  - apply extract_until_shorter in E.
    rewrite IH; simpl; [now rewrite <- app_assoc | lia | exact G].
  - rewrite read_fields_unfold. reflexivity.
Qed.

Lemma read_fields_input (input : std_string) :
  read_fields (stringstream_of input) [] = fields input.
Proof.
  rewrite (read_fields_good (n := S (length input))); [reflexivity| simpl; lia | reflexivity].
Qed.

Lemma constructStoredInfo_fields (info : StoredInfo) (input : std_string) :
  constructStoredInfo info input =
    match fields input with
    | r0 :: r1 :: r2 :: _ =>
        Returns {| identifier := r0;
                   numRows := sscanf_zu r1 (numRows info);
                   numCols := sscanf_zu r2 (numCols info) |}
    | _ => Throws out_of_range
    end.
Proof.
  unfold constructStoredInfo. rewrite read_fields_input.
  pose proof (fields_length input) as L.
  destruct (fields input) as [|r0 [|r1 [|r2 rs]]]; simpl in *; try reflexivity; lia.
Qed.

End Parser.

(** C4, as stated, fails: "m1,abc,20" has three fields and a row count that
    is no number, yet the parser raises nothing; it returns a descriptor
    whose row count is what the local variable held before (7 here). *)
Lemma constructStoredInfo_accepts_non_numeric :
  constructStoredInfo {| identifier := []; numRows := 7; numCols := 9 |}
                      (literal "m1,abc,20")
  = Returns {| identifier := literal "m1"; numRows := 7; numCols := 20 |}.
Proof. vm_compute. reflexivity. Qed.

(** C4, amended: the parser maps "m1,10,20" to
    {identifier: "m1", numRows: 10, numCols: 20}; for every input with fewer
    than 3 comma-delimited fields (fewer than 2 commas, e.g. "m1,10") it
    fails with std::out_of_range; every input with at least 3 fields is
    accepted, whatever its numeric fields hold: the identifier is the first
    field and each count is what [sscanf] made of its field. *)
Theorem constructStoredInfo_three_fields (info : StoredInfo) (input : std_string) :
  constructStoredInfo info (literal "m1,10,20")
    = Returns {| identifier := literal "m1"; numRows := 10; numCols := 20 |}
  /\ (commas input < 2 ->
      constructStoredInfo info input = Throws out_of_range)
  /\ (2 <= commas input ->
      exists r0 r1 r2 more,
        fields input = r0 :: r1 :: r2 :: more /\
        constructStoredInfo info input =
          Returns {| identifier := r0;
                     numRows := sscanf_zu r1 (numRows info);
                     numCols := sscanf_zu r2 (numCols info) |}).
Proof.
  split; [|split].
  - rewrite constructStoredInfo_fields. vm_compute. reflexivity.
  - intros Hfew. rewrite constructStoredInfo_fields.
    pose proof (fields_length input) as L.
    destruct (fields input) as [|r0 [|r1 [|r2 rs]]]; simpl in L; try reflexivity; lia.
  - intros Hmany. rewrite constructStoredInfo_fields.
    pose proof (fields_length input) as L.
    destruct (fields input) as [|r0 [|r1 [|r2 rs]]]; simpl in L; try lia.
    exists r0, r1, r2, rs. split; reflexivity.
Qed.

Lemma constructStoredInfo_three_fields_witness :
  constructStoredInfo {| identifier := []; numRows := 7; numCols := 9 |}
                      (literal "m1,10")
    = Throws out_of_range.
Proof.
  apply (constructStoredInfo_three_fields
           {| identifier := []; numRows := 7; numCols := 9 |} (literal "m1,10")).
  vm_compute. lia.
Defined.

(** ** Aggregation kernels *)

Section Loads.

Context {VT A : Type}.
Variable g : A -> VT -> A.
Variable values : list VT.

Lemma skipn_nth_error (k : nat) (x : VT) :
  nth_error values k = Some x -> skipn k values = x :: skipn (S k) values.
Proof.
  revert k. induction values as [|v vs IH]; intros [|k] E; simpl in *;
    try discriminate.
  - now injection E as ->.
  - apply IH. exact E.
Qed.

Lemma load_in_range (k : nat) :
  k < length values -> exists x, nth_error values k = Some x /\ load values k = Returns x.
Proof.
  intros Hk. unfold load.
  destruct (nth_error values k) as [x|] eqn:E.
  - exists x. split; reflexivity.
  - apply nth_error_None in E. lia.
Qed.

(** A counted loop that loads [values[base + k]] and combines is a left
    fold over that stretch of the array. *)
Lemma for_range_load (base : nat) :
  forall n i a, base + i + n <= length values ->
    for_range i n (fun k a => x <- load values (base + k) ;; Returns (g a x)) a
    = Returns (fold_left g (firstn n (skipn (base + i) values)) a).
Proof.
  induction n as [|n IH]; intros i a Hn; simpl; [reflexivity|].
  destruct (load_in_range (k := base + i)) as (x & E & ->); [lia|]. simpl.
  rewrite IH by lia.
  rewrite (skipn_nth_error _ E). simpl.
  now replace (base + S i) with (S (base + i)) by lia.
Qed.

End Loads.

Section Kernels.

Context {VTArg VTRes : Type} `{ValueType VTRes} `{StaticCast VTArg VTRes}.
Variable ctx : DaphneContext.

Lemma dense_rows_loop (func : EwBinaryScaFuncPtr VTRes) (arg : DenseMatrix.t VTArg) :
  dense_valid arg ->
  forall n r agg, r + n <= DenseMatrix.getNumRows arg ->
    for_range r n
      (fun _ '(agg, valuesArg) =>
         agg <- for_range 0 (DenseMatrix.getNumCols arg)
                  (fun c agg =>
                     x <- load (DenseMatrix.getValues arg) (valuesArg + c) ;;
                     Returns (func agg (static_cast x) ctx))
                  agg ;;
         Returns (agg, valuesArg + DenseMatrix.getRowSkip arg))
      (agg, r * DenseMatrix.getRowSkip arg)
    = Returns (fold_left (combine ctx func) (flat_map (dense_row arg) (seq r n)) agg,
               (r + n) * DenseMatrix.getRowSkip arg).
Proof.
  intros Hvalid. induction n as [|n IH]; intros r agg Hr.
  - simpl. now rewrite Nat.add_0_r.
  - cbn [for_range seq flat_map].
    pose proof (for_range_load (combine ctx func) (DenseMatrix.getValues arg)
                  (r * DenseMatrix.getRowSkip arg) (DenseMatrix.getNumCols arg) 0 agg)
      as L.
    unfold combine at 1 in L.
    rewrite L by (specialize (Hvalid r); lia). clear L.
    cbn [bind].
    replace (r * DenseMatrix.getRowSkip arg + DenseMatrix.getRowSkip arg)
      with (S r * DenseMatrix.getRowSkip arg) by lia.
    rewrite IH by lia.
    rewrite fold_left_app. unfold dense_row at 2. rewrite Nat.add_0_r.
    now replace (S r + n) with (r + S n) by lia.
Qed.

Lemma dense_apply_loops (opCode : AggOpCode.t) (arg : DenseMatrix.t VTArg) :
  dense_valid arg ->
  AggAll_DenseMatrix.apply opCode arg ctx =
    '(func, agg) <-
      (if isPureBinaryReduction opCode
       then op <- getBinaryOpCode opCode ;;
            neutral <- getNeutral opCode ;;
            Returns (getEwBinaryScaFuncPtr op, neutral)
       else Returns (getEwBinaryScaFuncPtr BinaryOpCode.ADD, vt_zero)) ;;
    let agg := fold_left (combine ctx func) (dense_cells arg) agg in
    if isPureBinaryReduction opCode then Returns agg
    else if AggOpCode.eqb opCode AggOpCode.MEAN
    then Returns (vt_div_size_t agg
                    (size_t_mul (DenseMatrix.getNumCols arg) (DenseMatrix.getNumRows arg)))
    else Throws (runtime_error "unsupported AggOpCode in AggAll for DenseMatrix").
Proof.
  intros Hvalid. unfold AggAll_DenseMatrix.apply.
  destruct opCode; cbn [isPureBinaryReduction getBinaryOpCode getNeutral bind];
    rewrite (dense_rows_loop _ Hvalid (DenseMatrix.getNumRows arg) 0) by lia;
    reflexivity.
Qed.

(** [aggArray] over an array that holds the [numNonZeros] values it is told
    to read. *)
Lemma aggArray_fold (values : list VTArg) (numNonZeros : nat) (numCells : N)
      (func : EwBinaryScaFuncPtr VTRes) (sparseSafe : bool) (neutral : VTRes) :
  numNonZeros <= length values ->
  AggAll_CSRMatrix.aggArray values numNonZeros numCells func sparseSafe neutral ctx =
    Returns
      match firstn numNonZeros values with
      | [] => func neutral vt_zero ctx
      | v0 :: rest =>
          let agg := fold_left (combine ctx func) rest (static_cast v0) in
          if negb sparseSafe && (N.of_nat numNonZeros <? numCells)%N
          then func agg vt_zero ctx
          else agg
      end.
Proof.
  intros Hlen. unfold AggAll_CSRMatrix.aggArray.
  destruct numNonZeros as [|n]; [reflexivity|].
  destruct values as [|v0 vs]; [simpl in Hlen; lia|].
  cbn [Nat.eqb negb load nth_error bind firstn].
  replace (S n - 1) with n by lia.
  pose proof (for_range_load (combine ctx func) (v0 :: vs) 0 n 1 (static_cast v0)) as L.
  cbn [Nat.add skipn] in L. unfold combine at 1 in L.
  rewrite L by lia. reflexivity.
Qed.

End Kernels.

(** Where the cell count fits a [size_t], the kernel's product is the
    number of cells. *)
Lemma csr_cells_total {VT : Type} (arg : CSRMatrix.t VT) :
  (csr_total_cells arg <= SIZE_MAX)%N -> csr_cells arg = csr_total_cells arg.
Proof.
  unfold csr_cells, csr_total_cells, size_t_mul, SIZE_MAX. intros Hfit.
  apply N.mod_small. lia.
Qed.

Lemma csr_2p64_cells_total :
  csr_total_cells csr_2p64_cells = (2 ^ 64)%N /\ csr_cells csr_2p64_cells = 0%N.
Proof.
  unfold csr_cells, csr_total_cells, size_t_mul.
  cbn [csr_2p64_cells CSRMatrix.getNumRows CSRMatrix.getNumCols].
  rewrite !N2Nat.id. split; reflexivity.
Qed.

(** MAX over a CSR matrix that stores one value and whose [size_t] cell
    count is 0: the stored value, with no combine against zero. *)
Lemma csr_apply_MAX_no_cells (rows cols : nat) (v : float) (ctx : DaphneContext) :
  size_t_mul rows cols = 0%N ->
  AggAll_CSRMatrix.apply AggOpCode.MAX
    {| CSRMatrix.getNumRows := rows; CSRMatrix.getNumCols := cols;
       CSRMatrix.getNumNonZeros := 1; CSRMatrix.getValues0 := [v] |} ctx
  = Returns v.
Proof.
  intros Hcells. unfold AggAll_CSRMatrix.apply, AggAll_CSRMatrix.aggArray.
  cbn [isPureBinaryReduction getBinaryOpCode getNeutral bind isSparseSafe
       CSRMatrix.getNumRows CSRMatrix.getNumCols CSRMatrix.getNumNonZeros
       CSRMatrix.getValues0].
  rewrite Hcells. reflexivity.
Qed.

(** C2, as stated, fails: a CSR matrix of [2^16] rows and [2^48] columns has
    [2^64] cells; with the one stored value -3 its non-zero count is below
    its cell count and MAX is not sparse-safe, so the result should be
    max(-3, 0) = 0.  The kernel's cell count is the [size_t] product, 0, so
    there is no combine with zero and MAX gives -3. *)
Lemma csr_apply_MAX_wrapped_cell_count :
  csr_total_cells csr_2p64_cells = (2 ^ 64)%N
  /\ (N.of_nat (CSRMatrix.getNumNonZeros csr_2p64_cells)
      < csr_total_cells csr_2p64_cells)%N
  /\ isSparseSafe AggOpCode.MAX = false
  /\ getEwBinaryScaFuncPtr BinaryOpCode.MAX (-3)%float vt_zero daphne_context
     = 0%float
  /\ AggAll_CSRMatrix.apply AggOpCode.MAX csr_2p64_cells daphne_context
     = Returns (-3)%float.
Proof.
  destruct csr_2p64_cells_total as [Htotal Hcells].
  split; [exact Htotal|]. split; [rewrite Htotal; reflexivity|].
  split; [reflexivity|]. split; [reflexivity|].
  unfold csr_2p64_cells. apply csr_apply_MAX_no_cells.
  unfold size_t_mul. rewrite !N2Nat.id. reflexivity.
Qed.

(** C2, amended: for every CSR matrix whose cell count fits a [size_t]
    (rows times columns below [2^64]) that stores at least one value, and
    every pure binary reduction, the result is the left fold of the
    reduction's function over the stored values, seeded with the first of
    them, and combined once more with zero exactly when the reduction is
    not sparse-safe and the non-zero count is below the cell count.  For 10
    cells storing 5, -2, 5: SUM gives 8, MAX 5 and MIN -2. *)
Theorem csr_apply_pure_fold
  {VTArg VTRes : Type} `{ValueType VTRes} `{StaticCast VTArg VTRes}
  (opCode : AggOpCode.t) (arg : CSRMatrix.t VTArg) (ctx : DaphneContext)
  (v0 : VTArg) (rest : list VTArg) :
  isPureBinaryReduction opCode = true ->
  csr_valid arg ->
  csr_stored arg = v0 :: rest ->
  (csr_total_cells arg <= SIZE_MAX)%N ->
  (exists op,
      getBinaryOpCode opCode = Returns op /\
      AggAll_CSRMatrix.apply opCode arg ctx =
        Returns
          (let func := getEwBinaryScaFuncPtr op in
           let agg := fold_left (fun agg x => func agg (static_cast x) ctx)
                                rest (static_cast v0) in
           if negb (isSparseSafe opCode)
              && (N.of_nat (CSRMatrix.getNumNonZeros arg) <? csr_total_cells arg)%N
           then func agg vt_zero ctx
           else agg))
  /\ AggAll_CSRMatrix.apply AggOpCode.SUM csr_10_cells ctx = Returns 8%float
  /\ AggAll_CSRMatrix.apply AggOpCode.MAX csr_10_cells ctx = Returns 5%float
  /\ AggAll_CSRMatrix.apply AggOpCode.MIN csr_10_cells ctx = Returns (-2)%float.
Proof.
  intros Hpure Hvalid Hstored Hfit. split.
  - rewrite <- (csr_cells_total arg Hfit).
    unfold AggAll_CSRMatrix.apply. rewrite Hpure.
    destruct opCode; try discriminate Hpure;
      cbn [getBinaryOpCode getNeutral bind];
      (eexists; split; [reflexivity|]);
      rewrite (aggArray_fold ctx _ _ _ _ _ Hvalid);
      fold (csr_stored arg); rewrite Hstored; reflexivity.
  - destruct ctx. repeat split; vm_compute; reflexivity.
Qed.

Lemma csr_apply_pure_fold_witness :
  AggAll_CSRMatrix.apply AggOpCode.MIN csr_10_cells daphne_context
  = Returns (-2)%float.
Proof.
  apply (@csr_apply_pure_fold float float _ _ AggOpCode.MIN csr_10_cells
           daphne_context 5%float [(-2)%float; 5%float]).
  - reflexivity.
  - unfold csr_valid. simpl. lia.
  - reflexivity.
  - vm_compute. discriminate.
Defined.

(** C3: on every dense and every CSR matrix (each with its values in
    place), aggregation with the standard-deviation op-code throws
    std::runtime_error and returns no number. *)
Theorem apply_STDDEV_unsupported
  {VTArg VTRes : Type} `{ValueType VTRes} `{StaticCast VTArg VTRes}
  (dense : DenseMatrix.t VTArg) (csr : CSRMatrix.t VTArg) (ctx : DaphneContext) :
  dense_valid dense ->
  csr_valid csr ->
  AggAll_DenseMatrix.apply (VTRes := VTRes) AggOpCode.STDDEV dense ctx
    = Throws (runtime_error "unsupported AggOpCode in AggAll for DenseMatrix")
  /\ AggAll_CSRMatrix.apply (VTRes := VTRes) AggOpCode.STDDEV csr ctx
    = Throws (runtime_error "unsupported AggOpCode in AggAll for CSRMatrix").
Proof.
  intros Hdense Hcsr. split.
  - rewrite (dense_apply_loops ctx _ Hdense). reflexivity.
  - unfold AggAll_CSRMatrix.apply.
    cbn [isPureBinaryReduction getBinaryOpCode bind].
    rewrite (aggArray_fold ctx _ _ _ _ _ Hcsr). reflexivity.
Qed.

Lemma dense_2x3_valid : dense_valid dense_2x3.
Proof.
  intros r Hr. simpl in *.
  destruct r as [|[|r]]; simpl; lia.
Defined.

Lemma csr_10_cells_valid : csr_valid csr_10_cells.
Proof. unfold csr_valid. simpl. lia. Defined.

Lemma apply_STDDEV_unsupported_witness :
  AggAll_DenseMatrix.apply (VTRes := float) AggOpCode.STDDEV dense_2x3 daphne_context
    = Throws (runtime_error "unsupported AggOpCode in AggAll for DenseMatrix")
  /\ AggAll_CSRMatrix.apply (VTRes := float) AggOpCode.STDDEV csr_10_cells daphne_context
    = Throws (runtime_error "unsupported AggOpCode in AggAll for CSRMatrix").
Proof.
  exact (@apply_STDDEV_unsupported float float _ _ dense_2x3 csr_10_cells
           daphne_context dense_2x3_valid csr_10_cells_valid).
Defined.

(** C7: for every dense matrix (with its rows in place), MEAN adds up all
    cells, row by row over the logical columns with rows a row stride
    apart, starting from zero, and divides the total by rows x cols.  The
    2x3 matrix 1, 2, 3, 4, 5, 6 has the mean 3.5. *)
Theorem dense_apply_MEAN
  {VTArg VTRes : Type} `{ValueType VTRes} `{StaticCast VTArg VTRes}
  (arg : DenseMatrix.t VTArg) (ctx : DaphneContext) :
  dense_valid arg ->
  AggAll_DenseMatrix.apply AggOpCode.MEAN arg ctx =
    Returns
      (vt_div_size_t
         (fold_left (fun agg x => vt_add agg (static_cast x)) (dense_cells arg) vt_zero)
         (size_t_mul (DenseMatrix.getNumCols arg) (DenseMatrix.getNumRows arg)))
  /\ AggAll_DenseMatrix.apply AggOpCode.MEAN dense_2x3 ctx = Returns 3.5%float.
Proof.
  intros Hvalid. split.
  - rewrite (dense_apply_loops ctx _ Hvalid). reflexivity.
  - destruct ctx. vm_compute. reflexivity.
Qed.

Lemma dense_apply_MEAN_witness :
  AggAll_DenseMatrix.apply AggOpCode.MEAN dense_2x3 daphne_context
  = Returns (vt_div_size_t
               (fold_left (fun agg x => vt_add agg (static_cast x))
                          (dense_cells dense_2x3) vt_zero)
               (size_t_mul 3 2)).
Proof.
  apply (@dense_apply_MEAN float float _ _ dense_2x3 daphne_context).
  exact dense_2x3_valid.
Defined.

(** C8: for every CSR matrix that stores no value and every pure binary
    reduction, the result is the reduction's neutral element combined once
    with zero.  SUM over an all-zero matrix of 4 cells gives 0. *)
Theorem csr_apply_pure_empty
  {VTArg VTRes : Type} `{ValueType VTRes} `{StaticCast VTArg VTRes}
  (opCode : AggOpCode.t) (arg : CSRMatrix.t VTArg) (ctx : DaphneContext) :
  isPureBinaryReduction opCode = true ->
  CSRMatrix.getNumNonZeros arg = 0 ->
  (exists op neutral,
      getBinaryOpCode opCode = Returns op /\
      getNeutral opCode = Returns neutral /\
      AggAll_CSRMatrix.apply opCode arg ctx
        = Returns (getEwBinaryScaFuncPtr op neutral vt_zero ctx))
  /\ csr_cells csr_all_zero = 4%N
  /\ AggAll_CSRMatrix.apply AggOpCode.SUM csr_all_zero ctx = Returns 0%float.
Proof.
  intros Hpure Hnnz. split; [|split].
  - unfold AggAll_CSRMatrix.apply, AggAll_CSRMatrix.aggArray.
    rewrite Hpure, Hnnz.
    destruct opCode; try discriminate Hpure;
      cbn [getBinaryOpCode getNeutral bind Nat.eqb negb];
      do 2 eexists; repeat split; reflexivity.
  - reflexivity.
  - destruct ctx. vm_compute. reflexivity.
Qed.

Lemma csr_apply_pure_empty_witness :
  AggAll_CSRMatrix.apply AggOpCode.MIN csr_all_zero daphne_context = Returns 0%float.
Proof.
  destruct (@csr_apply_pure_empty float float _ _ AggOpCode.MIN csr_all_zero
              daphne_context eq_refl eq_refl) as [(op & neutral & Hop & Hneutral & ->) _].
  injection Hop as <-. injection Hneutral as <-. reflexivity.
Defined.

(** ** The Task codec *)

Section Codec_facts.

Lemma bytes_of_size_t_length (n : N) : length (bytes_of_size_t n) = 8.
Proof. apply length_le_split. Qed.

Lemma size_t_of_bytes_of_size_t (n : N) :
  is_size_t n -> size_t_of_bytes (bytes_of_size_t n) = n.
Proof.
  unfold is_size_t, SIZE_MAX, size_t_of_bytes, bytes_of_size_t. intros Hn.
  rewrite le_combine_split.
  change (Z.of_nat sizeof_size_t * 8)%Z with 64%Z.
  rewrite Z.mod_small by lia. apply N2Z.id.
Qed.

Lemma wire_input_length (inp : StoredInfo) :
  length (wire_input inp) = length (identifier inp) + 3 * sizeof_size_t.
Proof.
  unfold wire_input. rewrite !length_app, !bytes_of_size_t_length.
  unfold sizeof_size_t. lia.
Qed.

Lemma wire_layout_length (t : Task) : length (wire_layout t) = wire_size t.
Proof.
  unfold wire_layout, wire_size.
  rewrite !length_app, !bytes_of_size_t_length, length_flat_map.
  rewrite (map_ext _ _ wire_input_length).
  unfold sizeof_Header, sizeof_size_t. lia.
Qed.

(** *** Reading *)

Lemma copy_out_returns (v : vector_char) (bufIdx len : nat) (bs : list byte) :
  copy_out v bufIdx len = Returns bs ->
  bs = firstn len (skipn bufIdx (storage v))
  /\ length bs = len
  /\ bufIdx + len <= length (storage v).
Proof.
  unfold copy_out, capacity.
  destruct (Nat.leb_spec (bufIdx + len) (length (storage v))) as [Hin|Hout];
    [|discriminate].
  intros E. assert (Hbs : bs = firstn len (skipn bufIdx (storage v))) by congruence.
  subst bs. split; [reflexivity|]. split; [|exact Hin].
  rewrite length_firstn, length_skipn. lia.
Qed.

Lemma size_t_of_bytes_range (bs : list byte) :
  length bs = sizeof_size_t -> is_size_t (size_t_of_bytes bs).
Proof.
  intros Hlen. unfold is_size_t, SIZE_MAX, size_t_of_bytes.
  pose proof (le_combine_bound bs) as B. rewrite Hlen in B.
  change (8 * Z.of_nat sizeof_size_t)%Z with 64%Z in B. lia.
Qed.

(** A read of the stretch [X] from a buffer that holds the first [k] bytes
    of [pre ++ X ++ post]. *)
Lemma copy_out_window (v : vector_char) (k : nat) (pre X post : list byte)
      (bufIdx len : nat) :
  storage v = firstn k (pre ++ X ++ post) ->
  bufIdx = length pre -> len = length X ->
  copy_out v bufIdx len = if bufIdx + len <=? k then Returns X else OutOfBounds.
Proof.
  intros Hs -> ->. unfold copy_out, capacity. rewrite Hs, length_firstn, !length_app.
  destruct (Nat.leb_spec (length pre + length X) k) as [Hk|Hk].
  - rewrite (proj2 (Nat.leb_le _ _)) by lia.
    rewrite skipn_firstn_comm, skipn_app, skipn_all, Nat.sub_diag. simpl.
    rewrite firstn_firstn, Nat.min_l by lia.
    rewrite firstn_app, firstn_all, Nat.sub_diag. simpl. now rewrite app_nil_r.
  - rewrite (proj2 (Nat.leb_gt _ _)) by lia. reflexivity.
Qed.

Variable mem : Memory.

Lemma deserialize_inputs_window (v : vector_char) (k : nat) (post : list byte) :
  forall (inps : list StoredInfo) (pre : list byte),
    Forall wf_input inps ->
    Forall (fun inp => holds_string mem (identifier inp)) inps ->
    storage v = firstn k (pre ++ flat_map wire_input inps ++ post) ->
    length pre <= k ->
    deserialize_inputs mem (length inps) v (length pre) =
      if length pre + length (flat_map wire_input inps) <=? k
      then Returns inps else OutOfBounds.
Proof.
  induction inps as [|inp inps IH]; intros pre Hwf Hmem Hs Hpre.
  - simpl. rewrite Nat.add_0_r, (proj2 (Nat.leb_le _ _)) by lia. reflexivity.
  - inversion Hwf as [|? ? (Hid & Hrows & Hcols) Hwf']; subst.
    inversion Hmem as [|? ? Hgrant Hmem']; subst. unfold holds_string in Hgrant.
    cbn [length deserialize_inputs flat_map] in *.
    rewrite length_app, wire_input_length.
    unfold wire_input in Hs. rewrite <- !app_assoc in Hs.
    set (L := bytes_of_size_t (N.of_nat (length (identifier inp)))) in *.
    set (R := bytes_of_size_t (numRows inp)) in *.
    set (C := bytes_of_size_t (numCols inp)) in *.
    assert (HL : length L = 8) by apply bytes_of_size_t_length.
    assert (HR : length R = 8) by apply bytes_of_size_t_length.
    assert (HC : length C = 8) by apply bytes_of_size_t_length.
    assert (HLv : size_t_of_bytes L = N.of_nat (length (identifier inp)))
      by (subst L; now rewrite size_t_of_bytes_of_size_t by assumption).
    rewrite (@copy_out_window v k pre L _ _ _ Hs eq_refl) by (now rewrite HL).
    destruct (Nat.leb_spec (length pre + sizeof_size_t) k) as [H1|H1]; cbn [bind];
      [|rewrite (proj2 (Nat.leb_gt _ _)) by (unfold sizeof_size_t in *; lia); reflexivity].
    rewrite HLv, Hgrant, Nat2N.id. cbn [bind].
    rewrite (@copy_out_window v k (pre ++ L) (identifier inp)
               (R ++ C ++ flat_map wire_input inps ++ post))
      by (rewrite ?length_app, ?HL; unfold sizeof_size_t;
          first [ lia | rewrite Hs, <- !app_assoc; reflexivity ]).
    destruct (Nat.leb_spec (length pre + sizeof_size_t + length (identifier inp)) k)
      as [H2|H2]; cbn [bind];
      [|rewrite (proj2 (Nat.leb_gt _ _)) by (unfold sizeof_size_t in *; lia); reflexivity].
    rewrite (@copy_out_window v k ((pre ++ L) ++ identifier inp) R
               (C ++ flat_map wire_input inps ++ post))
      by (rewrite ?length_app, ?HL, ?HR; unfold sizeof_size_t;
          first [ lia | rewrite Hs, <- !app_assoc; reflexivity ]).
    destruct (Nat.leb_spec
                (length pre + sizeof_size_t + length (identifier inp) + sizeof_size_t) k)
      as [H3|H3]; cbn [bind];
      [|rewrite (proj2 (Nat.leb_gt _ _)) by (unfold sizeof_size_t in *; lia); reflexivity].
    rewrite (@copy_out_window v k (((pre ++ L) ++ identifier inp) ++ R) C
               (flat_map wire_input inps ++ post))
      by (rewrite ?length_app, ?HL, ?HR, ?HC; unfold sizeof_size_t;
          first [ lia | rewrite Hs, <- !app_assoc; reflexivity ]).
    destruct (Nat.leb_spec
                (length pre + sizeof_size_t + length (identifier inp) + sizeof_size_t
                 + sizeof_size_t) k)
      as [H4|H4]; cbn [bind];
      [|rewrite (proj2 (Nat.leb_gt _ _)) by (unfold sizeof_size_t in *; lia); reflexivity].
    replace (length pre + sizeof_size_t + length (identifier inp) + sizeof_size_t
             + sizeof_size_t)
      with (length ((((pre ++ L) ++ identifier inp) ++ R) ++ C))
      by (rewrite !length_app, HL, HR, HC; unfold sizeof_size_t; lia).
    rewrite IH;
      [ | assumption | assumption | rewrite Hs, <- !app_assoc; reflexivity
        | rewrite !length_app, HL, HR, HC; unfold sizeof_size_t in *; lia ].
    rewrite !length_app, HL, HR, HC.
    subst R C. rewrite !size_t_of_bytes_of_size_t by assumption.
    destruct inp as [ident rows cols]; cbn [identifier numRows numCols] in *.
    match goal with
    | |- context [if ?a <=? k then _ else _] =>
        replace a with (length pre + (length ident + 3 * sizeof_size_t
                                      + length (flat_map wire_input inps)))
          by (unfold sizeof_size_t; lia)
    end.
    destruct (Nat.leb_spec
                (length pre + (length ident + 3 * sizeof_size_t
                               + length (flat_map wire_input inps))) k); reflexivity.
Qed.

(** [deserialize] of a buffer that holds the first [k] bytes of a Task's
    wire layout and of whatever follows it: the Task when the layout is all
    there, a read past the end otherwise. *)
Lemma deserialize_window (v : vector_char) (k : nat) (t : Task) (post : list byte) :
  wf_task t ->
  allocatable mem t ->
  storage v = firstn k (wire_layout t ++ post) ->
  deserialize mem v = if length (wire_layout t) <=? k then Returns t else OutOfBounds.
Proof.
  intros (Hcode & Hnum & Hwf) (Gcode & Gnum & Gids) Hs.
  unfold holds_string in Gcode.
  rewrite wire_layout_length. unfold wire_size. rewrite <- (map_ext _ _ wire_input_length),
    <- length_flat_map.
  unfold wire_layout in Hs. rewrite <- !app_assoc in Hs.
  set (HC := bytes_of_size_t (N.of_nat (length (mlir_code t)))) in *.
  set (HN := bytes_of_size_t (N.of_nat (length (inputs t)))) in *.
  assert (LC : length HC = 8) by apply bytes_of_size_t_length.
  assert (LN : length HN = 8) by apply bytes_of_size_t_length.
  assert (VC : size_t_of_bytes HC = N.of_nat (length (mlir_code t)))
    by (subst HC; now rewrite size_t_of_bytes_of_size_t by assumption).
  assert (VN : size_t_of_bytes HN = N.of_nat (length (inputs t)))
    by (subst HN; now rewrite size_t_of_bytes_of_size_t by assumption).
  unfold deserialize.
  rewrite (@copy_out_window v k [] HC _ _ _ Hs eq_refl) by (now rewrite LC).
  cbn [length Nat.add].
  destruct (Nat.leb_spec sizeof_size_t k) as [H1|H1]; cbn [bind];
    [|rewrite (proj2 (Nat.leb_gt _ _))
        by (unfold sizeof_Header, sizeof_size_t in *; lia); reflexivity].
  rewrite (@copy_out_window v k HC HN
             (mlir_code t ++ flat_map wire_input (inputs t) ++ post))
    by (rewrite ?LC, ?LN; unfold sizeof_size_t; first [ lia | exact Hs ]).
  destruct (Nat.leb_spec (sizeof_size_t + sizeof_size_t) k) as [H2|H2]; cbn [bind];
    [|rewrite (proj2 (Nat.leb_gt _ _))
        by (unfold sizeof_Header, sizeof_size_t in *; lia); reflexivity].
  rewrite VC, VN, Gcode, !Nat2N.id. cbn [bind].
  rewrite (@copy_out_window v k (HC ++ HN) (mlir_code t)
             (flat_map wire_input (inputs t) ++ post))
    by (rewrite ?length_app, ?LC, ?LN; unfold sizeof_Header, sizeof_size_t;
        first [ lia | rewrite Hs, <- !app_assoc; reflexivity ]).
  destruct (Nat.leb_spec (sizeof_Header + length (mlir_code t)) k) as [H3|H3]; cbn [bind];
    [|rewrite (proj2 (Nat.leb_gt _ _)) by lia; reflexivity].
  rewrite Gnum. cbn [bind].
  replace (sizeof_Header + length (mlir_code t))
    with (length ((HC ++ HN) ++ mlir_code t))
    by (rewrite !length_app, LC, LN; unfold sizeof_Header, sizeof_size_t; lia).
  rewrite (@deserialize_inputs_window v k post (inputs t));
    [ | assumption | assumption | rewrite Hs, <- !app_assoc; reflexivity
      | rewrite !length_app, LC, LN; unfold sizeof_Header, sizeof_size_t in *; lia ].
  rewrite !length_app, LC, LN.
  replace (8 + 8 + length (mlir_code t) + length (flat_map wire_input (inputs t)))
    with (sizeof_Header + length (mlir_code t) + length (flat_map wire_input (inputs t)))
    by (unfold sizeof_Header, sizeof_size_t; lia).
  destruct (Nat.leb_spec
              (sizeof_Header + length (mlir_code t)
               + length (flat_map wire_input (inputs t))) k); cbn [bind];
    [destruct t|]; reflexivity.
Qed.

(** What the resize checks add to a run in a memory without limits: nothing,
    or the exception of a resize. *)
Lemma string_resize_cases (n : N) :
  string_resize mem n = Returns tt
  \/ string_resize mem n = Throws length_error
  \/ string_resize mem n = Throws bad_alloc.
Proof.
  unfold string_resize.
  destruct (string_max_size mem <? n)%N; [now right; left|].
  destruct (string_allocates mem n); [now left | now right; right].
Qed.

Lemma vector_resize_cases (n : N) :
  vector_resize mem n = Returns tt
  \/ vector_resize mem n = Throws length_error
  \/ vector_resize mem n = Throws bad_alloc.
Proof.
  unfold vector_resize.
  destruct (vector_max_size mem <? n)%N; [now right; left|].
  destruct (vector_allocates mem n); [now left | now right; right].
Qed.

Lemma resize_unlimited (v : vector_char) (bufIdx : nat) (b : list byte) :
  copy_out v bufIdx sizeof_size_t = Returns b ->
  string_resize unlimited (size_t_of_bytes b) = Returns tt
  /\ vector_resize unlimited (size_t_of_bytes b) = Returns tt.
Proof.
  intros E. apply copy_out_returns in E. destruct E as (_ & Hlen & _).
  apply size_t_of_bytes_range in Hlen. unfold is_size_t in Hlen.
  unfold string_resize, vector_resize. cbn [unlimited string_max_size vector_max_size
    string_allocates vector_allocates].
  now rewrite (proj2 (N.ltb_ge _ _)) by exact Hlen.
Qed.

Lemma deserialize_inputs_or_throws (v : vector_char) :
  forall (n bufIdx : nat),
    deserialize_inputs mem n v bufIdx = deserialize_inputs unlimited n v bufIdx
    \/ deserialize_inputs mem n v bufIdx = Throws length_error
    \/ deserialize_inputs mem n v bufIdx = Throws bad_alloc.
Proof.
  induction n as [|n IH]; intros bufIdx; [now left|].
  cbn [deserialize_inputs].
  destruct (copy_out v bufIdx sizeof_size_t) as [b| |] eqn:E; cbn [bind];
    [|now left..].
  rewrite (proj1 (resize_unlimited _ _ E)).
  destruct (string_resize_cases (size_t_of_bytes b)) as [-> | [-> | ->]];
    cbn [bind]; [|now right; left | now right; right].
  destruct (copy_out v (bufIdx + sizeof_size_t) (N.to_nat (size_t_of_bytes b)));
    cbn [bind]; [|now left..].
  destruct (copy_out v (bufIdx + sizeof_size_t + N.to_nat (size_t_of_bytes b))
              sizeof_size_t); cbn [bind]; [|now left..].
  destruct (copy_out v (bufIdx + sizeof_size_t + N.to_nat (size_t_of_bytes b)
                        + sizeof_size_t) sizeof_size_t); cbn [bind]; [|now left..].
  destruct (IH (bufIdx + sizeof_size_t + N.to_nat (size_t_of_bytes b)
                + sizeof_size_t + sizeof_size_t)) as [-> | [-> | ->]];
    [now left | now right; left | now right; right].
Qed.

Lemma deserialize_or_throws (v : vector_char) :
  deserialize mem v = deserialize unlimited v
  \/ deserialize mem v = Throws length_error
  \/ deserialize mem v = Throws bad_alloc.
Proof.
  unfold deserialize.
  destruct (copy_out v 0 sizeof_size_t) as [b1| |] eqn:E1; cbn [bind]; [|now left..].
  destruct (copy_out v sizeof_size_t sizeof_size_t) as [b2| |] eqn:E2; cbn [bind];
    [|now left..].
  rewrite (proj1 (resize_unlimited _ _ E1)).
  destruct (string_resize_cases (size_t_of_bytes b1)) as [-> | [-> | ->]];
    cbn [bind]; [|now right; left | now right; right].
  destruct (copy_out v (0 + sizeof_Header) (N.to_nat (size_t_of_bytes b1)));
    cbn [bind]; [|now left..].
  rewrite (proj2 (resize_unlimited _ _ E2)).
  destruct (vector_resize_cases (size_t_of_bytes b2)) as [-> | [-> | ->]];
    cbn [bind]; [|now right; left | now right; right].
  destruct (deserialize_inputs_or_throws v (N.to_nat (size_t_of_bytes b2))
              (0 + sizeof_Header + N.to_nat (size_t_of_bytes b1)))
    as [-> | [-> | ->]]; [now left | now right; left | now right; right].
Qed.

(** *** Writing *)

(** A write of [src] right after the stretch [w] of a buffer whose storage
    is [w ++ tl]. *)
Lemma copy_in_at (v : vector_char) (w tl src : list byte) (bufIdx : nat) :
  storage v = w ++ tl -> bufIdx = length w ->
  copy_in src bufIdx v =
    if length src <=? length tl
    then Returns {| vec_size := vec_size v;
                    storage := (w ++ src) ++ skipn (length src) tl |}
    else OutOfBounds.
Proof.
  intros Hs ->. unfold copy_in, capacity. rewrite Hs, length_app.
  destruct (Nat.leb_spec (length src) (length tl)) as [Hfit|Hfit].
  - rewrite (proj2 (Nat.leb_le _ _)) by lia.
    rewrite firstn_app, firstn_all, Nat.sub_diag. simpl. rewrite app_nil_r.
    rewrite skipn_app, skipn_all2 by lia. simpl.
    replace (length w + length src - length w) with (length src) by lia.
    now rewrite app_assoc.
  - rewrite (proj2 (Nat.leb_gt _ _)) by lia. reflexivity.
Qed.

Ltac does_not_fit :=
  cbn [bind];
  rewrite (proj2 (Nat.leb_gt _ _))
    by (rewrite ?length_app, ?wire_input_length, ?length_skipn in *;
        unfold sizeof_size_t in *; lia);
  reflexivity.

Lemma serialize_inputs_at :
  forall (inps : list StoredInfo) (v : vector_char) (w tl : list byte),
    storage v = w ++ tl ->
    for_each inps
      (fun inp '(buffer, bufIdx) =>
         let strLen := length (identifier inp) in
         buffer <- copy_in (bytes_of_size_t (N.of_nat strLen)) bufIdx buffer ;;
         let bufIdx := bufIdx + sizeof_size_t in
         buffer <- copy_in (identifier inp) bufIdx buffer ;;
         let bufIdx := bufIdx + strLen in
         buffer <- copy_in (bytes_of_size_t (numRows inp)) bufIdx buffer ;;
         let bufIdx := bufIdx + sizeof_size_t in
         buffer <- copy_in (bytes_of_size_t (numCols inp)) bufIdx buffer ;;
         let bufIdx := bufIdx + sizeof_size_t in
         Returns (buffer, bufIdx))
      (v, length w)
    = if length (flat_map wire_input inps) <=? length tl
      then Returns
             ({| vec_size := vec_size v;
                 storage := (w ++ flat_map wire_input inps)
                              ++ skipn (length (flat_map wire_input inps)) tl |},
              length w + length (flat_map wire_input inps))
      else OutOfBounds.
Proof.
  induction inps as [|inp inps IH]; intros v w tl Hs.
  - destruct v as [sz st]. simpl in *. subst st.
    now rewrite app_nil_r, Nat.add_0_r.
  - cbn [for_each flat_map]. cbv zeta.
    set (L := bytes_of_size_t (N.of_nat (length (identifier inp)))) in *.
    set (R := bytes_of_size_t (numRows inp)) in *.
    set (C := bytes_of_size_t (numCols inp)) in *.
    assert (HL : length L = 8) by apply bytes_of_size_t_length.
    assert (HR : length R = 8) by apply bytes_of_size_t_length.
    assert (HC : length C = 8) by apply bytes_of_size_t_length.
    assert (HW : wire_input inp = ((L ++ identifier inp) ++ R) ++ C)
      by (unfold wire_input; now rewrite <- !app_assoc).
    rewrite (@copy_in_at v w tl L _ Hs eq_refl).
    destruct (Nat.leb_spec (length L) (length tl)) as [F1|F1]; [cbn [bind]|does_not_fit].
    rewrite (@copy_in_at _ (w ++ L) (skipn (length L) tl))
      by (rewrite ?length_app, ?HL; reflexivity).
    destruct (Nat.leb_spec (length (identifier inp)) (length (skipn (length L) tl)))
      as [F2|F2]; [cbn [bind]|does_not_fit].
    rewrite (@copy_in_at _ ((w ++ L) ++ identifier inp)
               (skipn (length (identifier inp)) (skipn (length L) tl)))
      by (rewrite ?length_app, ?HL; reflexivity).
    destruct (Nat.leb_spec (length R)
                (length (skipn (length (identifier inp)) (skipn (length L) tl))))
      as [F3|F3]; [cbn [bind]|does_not_fit].
    rewrite (@copy_in_at _ (((w ++ L) ++ identifier inp) ++ R)
               (skipn (length R) (skipn (length (identifier inp)) (skipn (length L) tl))))
      by (rewrite ?length_app, ?HL, ?HR; reflexivity).
    destruct (Nat.leb_spec (length C)
                (length (skipn (length R)
                           (skipn (length (identifier inp)) (skipn (length L) tl)))))
      as [F4|F4]; [cbn [bind]|does_not_fit].
    replace (length w + sizeof_size_t + length (identifier inp) + sizeof_size_t
             + sizeof_size_t)
      with (length ((((w ++ L) ++ identifier inp) ++ R) ++ C))
      by (rewrite !length_app, HL, HR, HC; unfold sizeof_size_t; lia).
    rewrite (IH _ _ (skipn (length C)
                       (skipn (length R)
                          (skipn (length (identifier inp)) (skipn (length L) tl)))))
      by reflexivity.
    cbn [vec_size].
    rewrite !skipn_skipn, !length_skipn in *.
    rewrite (length_app (wire_input inp)), wire_input_length.
    match goal with
    | |- (if ?a <=? ?b then _ else _) = _ => destruct (Nat.leb_spec a b) as [F5|F5]
    end;
      [ rewrite (proj2 (Nat.leb_le _ _)) by (unfold sizeof_size_t; lia)
      | rewrite (proj2 (Nat.leb_gt _ _)) by (unfold sizeof_size_t; lia); reflexivity ].
    f_equal. f_equal.
    + f_equal. rewrite HW, <- !app_assoc. do 7 f_equal.
      rewrite HL, HR, HC. unfold sizeof_size_t. lia.
    + rewrite !length_app, HL, HR, HC. unfold sizeof_size_t. lia.
Qed.

Variable sizeof_StoredInfo : nat.

(** [serialize] writes the wire layout at the start of the buffer when the
    storage that [reserve] leaves can take it, and writes past the end of
    that storage otherwise. *)
Lemma serialize_writes (t : Task) (buffer : vector_char) :
  serialize sizeof_StoredInfo t buffer =
    let reserved := reserve (sizeInBytes sizeof_StoredInfo t) buffer in
    if length (wire_layout t) <=? capacity reserved
    then Returns {| vec_size := vec_size reserved;
                    storage := wire_layout t
                                 ++ skipn (length (wire_layout t)) (storage reserved) |}
    else OutOfBounds.
Proof.
  unfold serialize. cbv zeta.
  set (v := reserve (sizeInBytes sizeof_StoredInfo t) buffer).
  unfold capacity, wire_layout.
  set (HC := bytes_of_size_t (N.of_nat (length (mlir_code t)))) in *.
  set (HN := bytes_of_size_t (N.of_nat (length (inputs t)))) in *.
  assert (LC : length HC = 8) by apply bytes_of_size_t_length.
  assert (LN : length HN = 8) by apply bytes_of_size_t_length.
  rewrite (@copy_in_at v [] (storage v) (HC ++ HN) 0 eq_refl eq_refl).
  destruct (Nat.leb_spec (length (HC ++ HN)) (length (storage v))) as [F1|F1];
    [cbn [bind]|does_not_fit].
  rewrite (@copy_in_at _ ([] ++ HC ++ HN) (skipn (length (HC ++ HN)) (storage v)))
    by (rewrite ?length_app, ?LC, ?LN; reflexivity).
  destruct (Nat.leb_spec (length (mlir_code t))
              (length (skipn (length (HC ++ HN)) (storage v)))) as [F2|F2];
    [cbn [bind]|does_not_fit].
  replace (0 + sizeof_Header + length (mlir_code t))
    with (length (([] ++ HC ++ HN) ++ mlir_code t))
    by (rewrite !length_app, LC, LN; unfold sizeof_Header, sizeof_size_t; simpl; lia).
  rewrite (@serialize_inputs_at (inputs t) _ _
             (skipn (length (mlir_code t)) (skipn (length (HC ++ HN)) (storage v))))
    by reflexivity.
  cbn [vec_size].
  rewrite !skipn_skipn, !length_skipn in *.
  rewrite !length_app in *. rewrite LC, LN in *.
  match goal with
  | |- bind (if ?a <=? ?b then _ else _) _ = _ => destruct (Nat.leb_spec a b) as [F3|F3]
  end;
    [ rewrite (proj2 (Nat.leb_le _ _)) by lia
    | rewrite (proj2 (Nat.leb_gt _ _)) by lia; reflexivity ].
  cbn [bind]. f_equal. f_equal.
  cbn [app]. rewrite <- !app_assoc. do 5 f_equal. lia.
Qed.

End Codec_facts.

Lemma capacity_reserve_empty (n : nat) : capacity (reserve n empty_vector) = n.
Proof.
  unfold reserve, capacity. simpl.
  destruct n as [|n]; simpl; [reflexivity|].
  now rewrite repeat_length.
Qed.

Lemma task_m1_wf : wf_task task_m1.
Proof.
  unfold wf_task, wf_input, is_size_t, SIZE_MAX. simpl.
  repeat split; try lia. repeat constructor; simpl; lia.
Defined.

(** A memory without limits holds every Task whose lengths are [size_t]s. *)
Lemma unlimited_allocatable (t : Task) : wf_task t -> allocatable unlimited t.
Proof.
  assert (S : forall n, is_size_t n -> string_resize unlimited n = Returns tt).
  { intros n Hn. unfold string_resize, is_size_t in *. simpl.
    now rewrite (proj2 (N.ltb_ge _ _)) by exact Hn. }
  assert (V : forall n, is_size_t n -> vector_resize unlimited n = Returns tt).
  { intros n Hn. unfold vector_resize, is_size_t in *. simpl.
    now rewrite (proj2 (N.ltb_ge _ _)) by exact Hn. }
  intros (Hcode & Hnum & Hwf). unfold allocatable, holds_string.
  split; [now apply S|]. split; [now apply V|].
  eapply Forall_impl; [|exact Hwf]. intros inp (Hid & _). now apply S.
Qed.

Lemma task_m1_allocatable : allocatable libstdcxx task_m1.
Proof.
  unfold allocatable, holds_string. simpl.
  split; [reflexivity|]. split; [reflexivity|]. repeat constructor.
Defined.

(** Where the buffer [reserve] leaves is large enough for the wire layout,
    [deserialize] gives back the Task that [serialize] wrote, in every
    memory that can hold the Task. *)
Theorem serialize_deserialize_fits (sizeof_StoredInfo : nat) (mem : Memory) (t : Task) :
  wf_task t ->
  allocatable mem t ->
  wire_size t <= sizeInBytes sizeof_StoredInfo t ->
  exists buffer,
    serialize sizeof_StoredInfo t empty_vector = Returns buffer
    /\ firstn (wire_size t) (storage buffer) = wire_layout t
    /\ deserialize mem buffer = Returns t.
Proof.
  intros Hwf Hmem Hfit. rewrite serialize_writes. cbv zeta.
  rewrite capacity_reserve_empty, wire_layout_length.
  rewrite (proj2 (Nat.leb_le _ _)) by exact Hfit.
  eexists. split; [reflexivity|]. cbn [storage]. split.
  - rewrite <- wire_layout_length, firstn_app, firstn_all, Nat.sub_diag.
    cbn [firstn]. apply app_nil_r.
  - erewrite deserialize_window with (k := length (wire_layout t ++ _)); eauto.
    + rewrite length_app, (proj2 (Nat.leb_le _ _)) by lia. reflexivity.
    + cbn [storage]. now rewrite firstn_all.
Qed.

Lemma serialize_deserialize_fits_witness :
  exists buffer,
    serialize 48 task_m1 empty_vector = Returns buffer
    /\ firstn (wire_size task_m1) (storage buffer) = wire_layout task_m1
    /\ deserialize libstdcxx buffer = Returns task_m1.
Proof.
  apply (@serialize_deserialize_fits 48 libstdcxx task_m1 task_m1_wf
           task_m1_allocatable).
  vm_compute. lia.
Defined.

(** C1: the round trip does not hold for every Task.  [serialize] reserves
    [sizeInBytes()] bytes, which counts [sizeof(StoredInfo)] per input and
    not the identifier's length; a Task whose wire layout is longer than
    that makes [serialize] write past the storage it reserved. *)
Theorem serialize_overflows_reserve (sizeof_StoredInfo : nat) (t : Task) :
  sizeInBytes sizeof_StoredInfo t < wire_size t ->
  serialize sizeof_StoredInfo t empty_vector = OutOfBounds.
Proof.
  intros Hlong. rewrite serialize_writes. cbv zeta.
  rewrite capacity_reserve_empty, wire_layout_length.
  now rewrite (proj2 (Nat.leb_gt _ _)) by exact Hlong.
Qed.

Lemma serialize_overflows_reserve_witness :
  serialize 48 task_long_identifier empty_vector = OutOfBounds.
Proof.
  apply (@serialize_overflows_reserve 48 task_long_identifier).
  vm_compute. lia.
Defined.

(** C5: [sizeInBytes()] is not the size of the wire layout.  Whatever
    [sizeof(StoredInfo)] is, of the two Tasks with the one input "m1" or
    "m12" at least one has a wire layout (43 and 44 bytes) of another
    length than the [17 + sizeof(StoredInfo)] that [sizeInBytes()] gives. *)
Theorem sizeInBytes_is_not_wire_size (sizeof_StoredInfo : nat) :
  sizeInBytes sizeof_StoredInfo task_m1 = 17 + sizeof_StoredInfo
  /\ sizeInBytes sizeof_StoredInfo task_m12 = 17 + sizeof_StoredInfo
  /\ length (wire_layout task_m1) = 43
  /\ length (wire_layout task_m12) = 44
  /\ (sizeInBytes sizeof_StoredInfo task_m1 <> length (wire_layout task_m1)
      \/ sizeInBytes sizeof_StoredInfo task_m12 <> length (wire_layout task_m12)).
Proof.
  assert (E1 : sizeInBytes sizeof_StoredInfo task_m1 = 17 + sizeof_StoredInfo)
    by (unfold sizeInBytes; simpl; lia).
  assert (E2 : sizeInBytes sizeof_StoredInfo task_m12 = 17 + sizeof_StoredInfo)
    by (unfold sizeInBytes; simpl; lia).
  assert (W1 : length (wire_layout task_m1) = 43) by reflexivity.
  assert (W2 : length (wire_layout task_m12) = 44) by reflexivity.
  repeat split; try assumption.
  rewrite E1, E2, W1, W2. lia.
Qed.

(** C6, as stated, fails: a buffer of 16 bytes whose header gives a code
    length of 0 and 1 input is shorter than that header declares, and
    [deserialize] does not reject it: both resizes succeed, and it goes on
    to read the input's identifier length at offset 16, past the end of
    the buffer. *)
Lemma deserialize_reads_past_the_end :
  length (bytes_of_size_t 0 ++ bytes_of_size_t 1) = 16
  /\ deserialize libstdcxx (vector_of (bytes_of_size_t 0 ++ bytes_of_size_t 1))
     = OutOfBounds.
Proof. split; vm_compute; reflexivity. Qed.

(** C6, amended: [deserialize] never compares a length it reads with the
    length of the buffer.  For every buffer that holds only the first [k]
    bytes of a Task's wire layout, and so is shorter than the lengths it
    declares, the only failures ahead of a read past the end of the buffer
    are those of a resize, std::length_error for a declared length above
    [max_size()] and std::bad_alloc for a refused allocation; it never
    returns a Task.  Where the memory can hold the Task, so that no resize
    fails, it reads past the end of the buffer. *)
Theorem deserialize_truncated (mem : Memory) (t : Task) (k : nat) :
  wf_task t ->
  k < length (wire_layout t) ->
  (deserialize mem (vector_of (firstn k (wire_layout t))) = OutOfBounds
   \/ deserialize mem (vector_of (firstn k (wire_layout t))) = Throws length_error
   \/ deserialize mem (vector_of (firstn k (wire_layout t))) = Throws bad_alloc)
  /\ (allocatable mem t ->
      deserialize mem (vector_of (firstn k (wire_layout t))) = OutOfBounds).
Proof.
  intros Hwf Hk.
  assert (W : forall m, allocatable m t ->
                deserialize m (vector_of (firstn k (wire_layout t))) = OutOfBounds).
  { intros m Hm.
    rewrite (@deserialize_window m _ k t [] Hwf Hm) by (now rewrite app_nil_r).
    now rewrite (proj2 (Nat.leb_gt _ _)) by exact Hk. }
  split; [|apply W].
  destruct (deserialize_or_throws mem (vector_of (firstn k (wire_layout t))))
    as [E | [E | E]]; [left | right; left; exact E | right; right; exact E].
  rewrite E. apply W, unlimited_allocatable, Hwf.
Qed.

(** Two buffers of 16 bytes that declare more inputs than the memory of the
    examples has room for: [2^60] of them are above the vector's
    [max_size()], [2^40] are within it and refused by the allocator.  Here
    [deserialize] throws from [inputs.resize] and reads nothing past the
    header. *)
Lemma deserialize_oversized_count :
  deserialize libstdcxx (vector_of (bytes_of_size_t 0 ++ bytes_of_size_t (2 ^ 60)))
  = Throws length_error
  /\ deserialize libstdcxx (vector_of (bytes_of_size_t 0 ++ bytes_of_size_t (2 ^ 40)))
     = Throws bad_alloc.
Proof. split; vm_compute; reflexivity. Qed.

Lemma deserialize_truncated_witness :
  deserialize libstdcxx (vector_of (firstn 20 (wire_layout task_m1))) = OutOfBounds.
Proof.
  apply (@deserialize_truncated libstdcxx task_m1 20 task_m1_wf).
  - vm_compute. lia.
  - exact task_m1_allocatable.
Defined.

(** * Further properties *)

(** ** Size announcements, identifiers and receiving *)

Section Announcements.

Variable message : Z.

Lemma announce_loop (ranks : list Z) :
  forall calls,
    fold_left
      (fun calls rank =>
         if (rank =? COORDINATOR)%Z then calls else calls ++ [announce message rank])
      ranks calls
    = calls ++ map (announce message) (filter (fun rank => negb (rank =? COORDINATOR)%Z) ranks).
Proof.
  induction ranks as [|rank ranks IH]; intros calls; simpl.
  - now rewrite app_nil_r.
  - rewrite IH. destruct (rank =? COORDINATOR)%Z; simpl; [reflexivity|].
    now rewrite <- app_assoc.
Qed.

Lemma positive_ranks_are_workers (n : nat) :
  forall k, 0 < k ->
    filter (fun rank => negb (rank =? COORDINATOR)%Z) (map Z.of_nat (seq k n))
    = map Z.of_nat (seq k n).
Proof.
  induction n as [|m IH]; intros k Hk; [reflexivity|].
  cbn [seq map filter].
  destruct (Z.eqb_spec (Z.of_nat k) COORDINATOR) as [E|_];
    [unfold COORDINATOR in E; lia|].
  cbn [negb]. f_equal. apply IH. lia.
Qed.

Lemma workers_of_ranks (worldSize : Z) :
  filter (fun rank => negb (rank =? COORDINATOR)%Z) (ranks_below worldSize)
  = map Z.of_nat (seq 1 (Z.to_nat worldSize - 1)).
Proof.
  unfold ranks_below. destruct (Z.to_nat worldSize) as [|n]; [reflexivity|].
  cbn [seq map filter]. change (Z.of_nat 0 =? COORDINATOR)%Z with true. cbn [negb].
  rewrite Nat.sub_succ, Nat.sub_0_r. apply positive_ranks_are_workers. lia.
Qed.

End Announcements.

(** [sendData] sends the length, as one [MPI_INT] under the tag BROADCAST,
    to every rank from 1 up to [worldSize - 1], once each and in rising
    order, never to the coordinator (rank 0), and then calls [MPI_Bcast]
    once, with the coordinator as root; with a world of one process or none
    the broadcast is all it does. *)
Theorem sendData_announces_then_broadcasts
  (worldSize : Z) (messageLength : N) (data : list byte) (calls : list MPI_call) :
  sendData worldSize messageLength data calls =
    calls
      ++ map (fun rank =>
                call_MPI_Send
                  {| buf := address_of_int (int_of_size_t messageLength); count := 1;
                     datatype := MPI_INT; dest := rank; tag := tag_of BROADCAST |})
             (map Z.of_nat (seq 1 (Z.to_nat worldSize - 1)))
      ++ [ call_MPI_Bcast (data_pointer data) (int_of_size_t messageLength)
                          MPI_UNSIGNED_CHAR COORDINATOR ].
Proof.
  unfold sendData. cbv zeta.
  rewrite (announce_loop (int_of_size_t messageLength)), workers_of_ranks.
  now rewrite <- app_assoc.
Qed.

Section Identifier.

Lemma c_str_without_NUL (s : std_string) : ~ In Byte.x00 s -> c_str s = s.
Proof.
  induction s as [|c s IH]; intros Hno; simpl; [reflexivity|].
  destruct (Byte.eqb c Byte.x00) eqn:E.
  - apply Byte.byte_dec_bl in E. subst c. exfalso. apply Hno. now left.
  - f_equal. apply IH. intros Hin. apply Hno. now right.
Qed.

Lemma c_str_at_NUL (a b : std_string) :
  ~ In Byte.x00 a -> c_str (a ++ Byte.x00 :: b) = a.
Proof.
  induction a as [|c a IH]; intros Hno; simpl; [reflexivity|].
  destruct (Byte.eqb c Byte.x00) eqn:E.
  - apply Byte.byte_dec_bl in E. subst c. exfalso. apply Hno. now left.
  - f_equal. apply IH. intros Hin. apply Hno. now right.
Qed.

Lemma char_array_length (len : Z) (indeterminate : list byte) :
  capacity (char_array len indeterminate) = Z.to_nat len.
Proof.
  unfold capacity, char_array. cbn [storage].
  rewrite length_firstn, length_app, repeat_length. lia.
Qed.

Lemma int_wrap_fits (z : Z) : (- 2 ^ 31 <= z < 2 ^ 31)%Z -> int_wrap z = z.
Proof. intros Hz. unfold int_wrap. rewrite Z.mod_small by lia. lia. Qed.

End Identifier.

(** For every identifier that holds no NUL and is shorter than
    [INT_MAX], [sendObjectIdentifier] sends two messages to the rank it is
    given, the coordinator's included: the identifier's length plus one as
    an [MPI_INT] under OBJECTIDENTIFIERSIZE, then under OBJECTIDENTIFIER that
    many chars, the identifier followed by a NUL.  Nothing of what the local
    array held before is sent. *)
Theorem sendObjectIdentifier_terminated
  (indeterminate : list byte) (identifier : std_string) (rank : Z)
  (sent : list MPI_Send) :
  ~ In Byte.x00 identifier ->
  (Z.of_nat (length identifier) < 2 ^ 31 - 1)%Z ->
  sendObjectIdentifier indeterminate identifier rank sent =
    Returns
      (sent ++ [ {| buf := address_of_int (Z.of_nat (length identifier) + 1);
                    count := 1; datatype := MPI_INT; dest := rank;
                    tag := tag_of OBJECTIDENTIFIERSIZE |};
                 {| buf := data_pointer (identifier ++ [Byte.x00]);
                    count := Z.of_nat (length identifier) + 1;
                    datatype := MPI_CHAR; dest := rank;
                    tag := tag_of OBJECTIDENTIFIER |} ]).
Proof.
  intros Hno Hlen. unfold sendObjectIdentifier. cbv zeta.
  rewrite int_of_size_t_fits by lia.
  rewrite nat_N_Z, int_wrap_fits by lia.
  set (len := (Z.of_nat (length identifier) + 1)%Z).
  rewrite c_str_without_NUL by assumption.
  assert (Hn : Z.to_nat len = length (identifier ++ [Byte.x00]))
    by (rewrite length_app; simpl; lia).
  unfold copy_in at 1. rewrite char_array_length, Hn.
  rewrite Nat.add_0_l, Nat.leb_refl. cbn [bind firstn app].
  unfold char_array. cbn [storage vec_size].
  rewrite skipn_all2
    by (rewrite length_firstn, length_app, repeat_length; lia).
  rewrite app_nil_r.
  unfold copy_in, capacity. cbn [storage vec_size length].
  replace (Z.to_nat (len - 1)) with (length identifier) by lia.
  rewrite length_app. cbn [length].
  rewrite Nat.leb_refl. cbn [bind].
  rewrite firstn_app, firstn_all, Nat.sub_diag. cbn [firstn].
  rewrite skipn_all2 by (rewrite length_app; simpl; lia).
  rewrite !app_nil_r, <- app_assoc. reflexivity.
Qed.

Lemma sendObjectIdentifier_terminated_witness :
  sendObjectIdentifier [Byte.xff; Byte.xff; Byte.xff; Byte.xff] (literal "m1") 0 [] =
    Returns
      [ {| buf := address_of_int 3; count := 1; datatype := MPI_INT; dest := 0; tag := 10 |};
        {| buf := data_pointer (literal "m1" ++ [Byte.x00]); count := 3;
           datatype := MPI_CHAR; dest := 0; tag := 11 |} ].
Proof.
  apply (@sendObjectIdentifier_terminated
           [Byte.xff; Byte.xff; Byte.xff; Byte.xff] (literal "m1") 0 []).
  - simpl. intros [H|[H|[]]]; discriminate.
  - simpl. lia.
Defined.

(** An identifier with a NUL inside is cut there by [strcpy]: what is sent
    after that NUL, up to the closing NUL, is not the rest of the
    identifier but the bytes the local array happened to hold. *)
Theorem sendObjectIdentifier_embedded_NUL
  (indeterminate : list byte) (a b : std_string) (rank : Z) (sent : list MPI_Send) :
  ~ In Byte.x00 a ->
  (Z.of_nat (length (a ++ Byte.x00 :: b)) < 2 ^ 31 - 1)%Z ->
  let len := (Z.of_nat (length (a ++ Byte.x00 :: b)) + 1)%Z in
  sendObjectIdentifier indeterminate (a ++ Byte.x00 :: b) rank sent =
    Returns
      (sent ++ [ {| buf := address_of_int len; count := 1; datatype := MPI_INT;
                    dest := rank; tag := tag_of OBJECTIDENTIFIERSIZE |};
                 {| buf := data_pointer
                             (a ++ [Byte.x00]
                                ++ firstn (length b)
                                     (skipn (length a + 1)
                                            (storage (char_array len indeterminate)))
                                ++ [Byte.x00]);
                    count := len; datatype := MPI_CHAR; dest := rank;
                    tag := tag_of OBJECTIDENTIFIER |} ]).
Proof.
  intros Hno Hlen len. unfold sendObjectIdentifier. cbv zeta.
  rewrite int_of_size_t_fits by lia.
  rewrite nat_N_Z, int_wrap_fits by lia. fold len.
  rewrite c_str_at_NUL by assumption.
  pose proof (char_array_length len indeterminate) as Hcap.
  set (arr := char_array len indeterminate) in *.
  assert (Hn : Z.to_nat len = length a + 1 + length b + 1)
    by (subst len; rewrite length_app in *; simpl in *; lia).
  unfold copy_in at 1. rewrite Hcap, Hn, length_app. cbn [length].
  rewrite (proj2 (Nat.leb_le _ _)) by lia. cbn [bind firstn app Nat.add].
  unfold copy_in, capacity. cbn [storage vec_size length].
  replace (Z.to_nat (len - 1)) with (length a + 1 + length b) by lia.
  assert (Hrest : length (skipn (length a + 1) (storage arr)) = length b + 1)
    by (rewrite length_skipn; unfold capacity in Hcap; lia).
  rewrite !length_app. cbn [length]. rewrite Hrest.
  rewrite (proj2 (Nat.leb_le _ _)) by lia. cbn [bind].
  rewrite firstn_app, firstn_all2 by (rewrite length_app; simpl; lia).
  rewrite length_app. cbn [length].
  replace (length a + 1 + length b - (length a + 1)) with (length b) by lia.
  match goal with
  | |- context [skipn ?n ((a ++ ?z) ++ ?r)] =>
      rewrite (@skipn_all2 _ n ((a ++ z) ++ r))
        by (rewrite !length_app, Hrest; simpl; lia)
  end.
  rewrite app_nil_r, <- !app_assoc. reflexivity.
Qed.

Lemma sendObjectIdentifier_embedded_NUL_witness :
  sendObjectIdentifier [Byte.xf0; Byte.xf1; Byte.xf2; Byte.xf3; Byte.xf4; Byte.xf5]
                       (literal "a" ++ Byte.x00 :: literal "bc") 1 [] =
    Returns
      [ {| buf := address_of_int 5; count := 1; datatype := MPI_INT; dest := 1; tag := 10 |};
        {| buf := data_pointer [Byte.x61; Byte.x00; Byte.xf2; Byte.xf3; Byte.x00];
           count := 5; datatype := MPI_CHAR; dest := 1; tag := 11 |} ].
Proof.
  apply (@sendObjectIdentifier_embedded_NUL
           [Byte.xf0; Byte.xf1; Byte.xf2; Byte.xf3; Byte.xf4; Byte.xf5]
           (literal "a") (literal "bc") 1 []).
  - simpl. intros [H|[]]; discriminate.
  - simpl. lia.
Defined.

Section Receiving.

Variable probed : envelope.











End Receiving.



(** With any other datatype neither function reserves anything: when the
    storage the vector already has is smaller than the message, the receive
    writes past it. *)
Theorem getMessage_other_type_reserves_nothing
  (probed : envelope) (data : vector_char) :
  capacity data < 4 * (length (env_payload probed) / 4) ->
  getMessage probed MPI_INT data = OutOfBounds
  /\ getMessageFrom probed MPI_INT data = OutOfBounds.
Proof.
  intros Hsmall. unfold getMessage, getMessageFrom, MPI_Recv, MPI_Get_count, copy_in.
  cbv zeta. cbn [sizeof_datatype].
  assert (Hlen : length (env_payload probed) / 4 * 4 <= length (env_payload probed))
    by (rewrite Nat.mul_comm; apply Nat.Div0.mul_div_le).
  rewrite length_firstn, Nat.min_l by exact Hlen.
  rewrite (proj2 (Nat.leb_gt _ _)) by lia.
  split; reflexivity.
Qed.

Lemma getMessage_other_type_reserves_nothing_witness :
  getMessage {| env_source := 1; env_tag := 1; env_payload := repeat Byte.x00 4 |}
             MPI_INT empty_vector = OutOfBounds
  /\ getMessageFrom {| env_source := 1; env_tag := 1; env_payload := repeat Byte.x00 4 |}
                    MPI_INT empty_vector = OutOfBounds.
Proof.
  apply (@getMessage_other_type_reserves_nothing
           {| env_source := 1; env_tag := 1; env_payload := repeat Byte.x00 4 |}
           empty_vector).
  vm_compute. lia.
Defined.






(** ** More on the Task codec *)

(** [deserialize] reads the wire layout at the start of the buffer and
    nothing else: whatever bytes follow a Task's layout, the Task comes
    back, in every memory that can hold it. *)
Theorem deserialize_ignores_what_follows (mem : Memory) (buffer : vector_char)
        (t : Task) (rest : list byte) :
  wf_task t ->
  allocatable mem t ->
  storage buffer = wire_layout t ++ rest ->
  deserialize mem buffer = Returns t.
Proof.
  intros Hwf Hmem Hs.
  rewrite (@deserialize_window mem buffer (length (wire_layout t ++ rest)) t rest
             Hwf Hmem)
    by (now rewrite firstn_all).
  now rewrite length_app, (proj2 (Nat.leb_le _ _)) by lia.
Qed.

Lemma deserialize_ignores_what_follows_witness :
  deserialize libstdcxx (vector_of (wire_layout task_m1 ++ literal "trailing bytes"))
  = Returns task_m1.
Proof.
  apply (@deserialize_ignores_what_follows libstdcxx
           (vector_of (wire_layout task_m1 ++ literal "trailing bytes"))
           task_m1 (literal "trailing bytes") task_m1_wf task_m1_allocatable).
  reflexivity.
Defined.

(** The wire layout determines the Task, and no layout is the start of
    another: if the layout of one Task is that of a second followed by
    more bytes, the Tasks are equal and no bytes follow. *)
Theorem wire_layout_prefix_free (t1 t2 : Task) (rest : list byte) :
  wf_task t1 -> wf_task t2 ->
  wire_layout t2 = wire_layout t1 ++ rest ->
  t1 = t2 /\ rest = [].
Proof.
  intros Hwf1 Hwf2 Hlayout.
  assert (D1 : deserialize unlimited (vector_of (wire_layout t2)) = Returns t1).
  { rewrite (@deserialize_window unlimited (vector_of (wire_layout t2))
               (length (wire_layout t1 ++ rest)) t1 rest Hwf1
               (unlimited_allocatable Hwf1))
      by (cbn [vector_of storage]; now rewrite firstn_all, Hlayout).
    now rewrite length_app, (proj2 (Nat.leb_le _ _)) by lia. }
  assert (D2 : deserialize unlimited (vector_of (wire_layout t2)) = Returns t2).
  { rewrite (@deserialize_window unlimited (vector_of (wire_layout t2))
               (length (wire_layout t2 ++ [])) t2 [] Hwf2
               (unlimited_allocatable Hwf2))
      by (cbn [vector_of storage]; now rewrite firstn_all, app_nil_r).
    now rewrite length_app, (proj2 (Nat.leb_le _ _)) by lia. }
  rewrite D1 in D2. injection D2 as ->. split; [reflexivity|].
  apply (f_equal (@length byte)) in Hlayout. rewrite length_app in Hlayout.
  destruct rest; [reflexivity|simpl in Hlayout; lia].
Qed.

Lemma wire_layout_prefix_free_witness : task_m1 = task_m1 /\ @nil byte = [].
Proof.
  apply (@wire_layout_prefix_free task_m1 task_m1 [] task_m1_wf task_m1_wf).
  now rewrite app_nil_r.
Defined.

(** ** What deserialize returns *)


Lemma skipn_add {X : Type} (i k : nat) (l : list X) :
  skipn (i + k) l = skipn k (skipn i l).
Proof. now rewrite skipn_skipn, Nat.add_comm. Qed.

Lemma skipn_skipn_add {X : Type} (i k : nat) (l : list X) :
  skipn k (skipn i l) = skipn (i + k) l.
Proof. now rewrite skipn_add. Qed.





(** When [serialize] returns, the buffer's storage starts with the Task's
    wire layout, the storage is at least as long as the layout, and the
    vector's [size()] is what it was before: [serialize] writes into
    reserved storage and never makes the bytes elements of the vector. *)
Theorem serialize_keeps_size (sizeof_StoredInfo : nat) (t : Task)
        (buffer written : vector_char) :
  serialize sizeof_StoredInfo t buffer = Returns written ->
  vec_size written = vec_size buffer
  /\ firstn (wire_size t) (storage written) = wire_layout t
  /\ wire_size t <= capacity written.
Proof.
  rewrite serialize_writes. cbv zeta. rewrite wire_layout_length.
  destruct (Nat.leb_spec (wire_size t)
              (capacity (reserve (sizeInBytes sizeof_StoredInfo t) buffer)))
    as [Hfit|Hfit]; [|discriminate].
  intros E.
  apply (f_equal (fun o => match o with Returns w => w | _ => written end)) in E.
  cbn beta iota in E. subst written. unfold capacity in *. cbn [vec_size storage].
  split; [|split].
  - unfold reserve. destruct (_ <? _); reflexivity.
  - rewrite <- wire_layout_length, firstn_app, firstn_all, Nat.sub_diag.
    cbn [firstn]. apply app_nil_r.
  - rewrite length_app, wire_layout_length. lia.
Qed.

Lemma serialize_keeps_size_witness :
  vec_size {| vec_size := 0;
              storage := wire_layout task_m1 ++ repeat Byte.x00 22 |} = 0
  /\ firstn (wire_size task_m1)
            (storage {| vec_size := 0;
                        storage := wire_layout task_m1 ++ repeat Byte.x00 22 |})
     = wire_layout task_m1
  /\ wire_size task_m1
     <= capacity {| vec_size := 0;
                    storage := wire_layout task_m1 ++ repeat Byte.x00 22 |}.
Proof.
  apply (@serialize_keeps_size 48 task_m1 empty_vector).
  vm_compute. reflexivity.
Defined.

Lemma short_identifiers_fit (sizeof_StoredInfo : nat) (inps : list StoredInfo) :
  (forall inp, In inp inps ->
               length (identifier inp) + 3 * sizeof_size_t <= sizeof_StoredInfo) ->
  list_sum (map (fun inp => length (identifier inp) + 3 * sizeof_size_t) inps)
  <= sizeof_StoredInfo * length inps.
Proof.
  induction inps as [|inp inps IH]; intros Hshort.
  - simpl. lia.
  - specialize (IH (fun i Hi => Hshort i (or_intror Hi))).
    specialize (Hshort inp (or_introl eq_refl)).
    change (list_sum (map (fun inp => length (identifier inp) + 3 * sizeof_size_t)
                          (inp :: inps)))
      with (length (identifier inp) + 3 * sizeof_size_t
            + list_sum (map (fun inp => length (identifier inp) + 3 * sizeof_size_t)
                            inps)).
    cbn [length]. rewrite Nat.mul_succ_r. lia.
Qed.

(** The round trip holds for every Task whose identifiers are short
    enough: when each identifier with its three [size_t] fields (24
    bytes) fits into [sizeof(StoredInfo)], [serialize] stays within what it
    reserved and [deserialize] gives the Task back, in every memory that
    can hold it. *)
Theorem round_trip_short_identifiers (sizeof_StoredInfo : nat) (mem : Memory)
        (t : Task) :
  wf_task t ->
  allocatable mem t ->
  (forall inp, In inp (inputs t) ->
               length (identifier inp) + 3 * sizeof_size_t <= sizeof_StoredInfo) ->
  exists buffer,
    serialize sizeof_StoredInfo t empty_vector = Returns buffer
    /\ deserialize mem buffer = Returns t.
Proof.
  intros Hwf Hmem Hshort. rewrite serialize_writes. cbv zeta.
  rewrite capacity_reserve_empty, wire_layout_length.
  rewrite (proj2 (Nat.leb_le _ _))
    by (pose proof (short_identifiers_fit _ Hshort); unfold wire_size, sizeInBytes; lia).
  eexists. split; [reflexivity|].
  erewrite deserialize_window with (k := length (wire_layout t ++ _)); eauto.
  - rewrite length_app, (proj2 (Nat.leb_le _ _)) by lia. reflexivity.
  - cbn [storage]. now rewrite firstn_all.
Qed.

Lemma round_trip_short_identifiers_witness :
  exists buffer,
    serialize 48 task_m1 empty_vector = Returns buffer
    /\ deserialize libstdcxx buffer = Returns task_m1.
Proof.
  apply (@round_trip_short_identifiers 48 libstdcxx task_m1 task_m1_wf
           task_m1_allocatable).
  intros inp [<-|[]]. vm_compute. lia.
Defined.



(** ** More on the acknowledgement parser *)

Section Parser_more.

Lemma fields_nonempty (cs : list byte) : fields cs <> [].
Proof.
  pose proof (fields_length cs) as L. destruct (fields cs); [discriminate|discriminate].
Qed.

Lemma fields_app_comma (a b : list byte) :
  fields (a ++ comma :: b) = fields a ++ fields b.
Proof.
  induction a as [|c a IH]; [reflexivity|].
  cbn [app fields]. destruct (Byte.eqb c comma); [now rewrite IH|].
  rewrite IH. destruct (fields a) as [|f fs] eqn:E; [|reflexivity].
  now apply fields_nonempty in E.
Qed.

Lemma fields_without_comma (a : list byte) : ~ In comma a -> fields a = [a].
Proof.
  induction a as [|c a IH]; intros Hno; [reflexivity|].
  cbn [fields]. destruct (Byte.eqb c comma) eqn:E.
  - apply Byte.byte_dec_bl in E. subst c. exfalso. apply Hno. now left.
  - rewrite IH; [reflexivity|]. intros Hin. apply Hno. now right.
Qed.

Lemma digit_of_digit_char (d : N) : (d < 10)%N -> digit_of (digit_char d) = Some d.
Proof.
  intros Hd.
  assert (H : (d = 0 \/ d = 1 \/ d = 2 \/ d = 3 \/ d = 4 \/ d = 5 \/ d = 6 \/ d = 7
               \/ d = 8 \/ d = 9)%N) by lia.
  repeat (destruct H as [->|H]; [reflexivity|]). subst d. reflexivity.
Qed.

Lemma digit_char_plain (d : N) :
  (d < 10)%N ->
  isspace (digit_char d) = false
  /\ Byte.eqb (digit_char d) plus_sign = false
  /\ Byte.eqb (digit_char d) minus_sign = false
  /\ digit_char d <> comma.
Proof.
  intros Hd.
  assert (H : (d = 0 \/ d = 1 \/ d = 2 \/ d = 3 \/ d = 4 \/ d = 5 \/ d = 6 \/ d = 7
               \/ d = 8 \/ d = 9)%N) by lia.
  repeat (destruct H as [->|H]; [repeat split; discriminate|]).
  subst d. repeat split; discriminate.
Qed.

(** Reading the numeral of [n] adds [n] to what was read, shifted by the
    numeral's length. *)
Lemma read_digits_decimal (digits : nat) :
  forall (n acc : N) (rest : list byte),
    (n < 10 ^ N.of_nat digits)%N ->
    read_digits (decimal_digits digits n ++ rest) acc
    = read_digits rest (acc * 10 ^ N.of_nat (length (decimal_digits digits n)) + n)%N.
Proof.
  induction digits as [|digits IH]; intros n acc rest Hn.
  - cbn [decimal_digits app length]. f_equal; simpl in Hn; simpl; lia.
  - cbn [decimal_digits]. destruct (N.ltb_spec n 10) as [Hsmall|Hbig].
    + cbn [app read_digits length]. rewrite digit_of_digit_char by assumption.
      f_equal; change (N.of_nat 1) with 1%N; lia.
    + rewrite <- app_assoc. cbn [app].
      rewrite IH.
      2:{ rewrite Nat2N.inj_succ, N.pow_succ_r' in Hn.
          apply N.Div0.div_lt_upper_bound. lia. }
      cbn [read_digits]. rewrite digit_of_digit_char by (apply N.mod_lt; lia).
      f_equal; rewrite length_app; cbn [length];
        rewrite Nat.add_1_r, Nat2N.inj_succ, N.pow_succ_r';
        pose proof (N.div_mod' n 10); lia.
Qed.

Lemma decimal_digits_head (digits : nat) (n : N) :
  exists d ds, decimal_digits (S digits) n = digit_char d :: ds /\ (d < 10)%N.
Proof.
  revert n. induction digits as [|digits IH]; intros n.
  - cbn [decimal_digits]. destruct (N.ltb_spec n 10).
    + exists n, []. split; [reflexivity|assumption].
    + exists (n mod 10)%N, []. split; [reflexivity|apply N.mod_lt; lia].
  - change (decimal_digits (S (S digits)) n)
      with (if (n <? 10)%N then [digit_char n]
            else decimal_digits (S digits) (n / 10) ++ [digit_char (n mod 10)]).
    destruct (N.ltb_spec n 10).
    + exists n, []. split; [reflexivity|assumption].
    + destruct (IH (n / 10)%N) as (d & ds & -> & Hd).
      exists d, (ds ++ [digit_char (n mod 10)]). split; [reflexivity|assumption].
Qed.

Lemma decimal_digits_without_comma (digits : nat) :
  forall n, ~ In comma (decimal_digits digits n).
Proof.
  induction digits as [|digits IH]; intros n; [intros []|].
  cbn [decimal_digits]. destruct (N.ltb_spec n 10).
  - intros [E|[]]. now apply (digit_char_plain H).
  - rewrite in_app_iff. intros [Hin|[E|[]]]; [now apply (IH _ Hin)|].
    assert (Hd : (n mod 10 < 10)%N) by (apply N.mod_lt; lia).
    now apply (digit_char_plain Hd).
Qed.



(** [sscanf("%zu")] reads the decimal numeral of a [size_t] as that value. *)
Lemma sscanf_zu_decimal (n old : N) :
  (n <= SIZE_MAX)%N -> sscanf_zu (decimal n) old = n.
Proof.
  intros Hn. unfold sscanf_zu, decimal.
  destruct (decimal_digits_head 19 n) as (d & ds & E & Hd).
  destruct (digit_char_plain Hd) as (Hspace & Hplus & Hminus & _).
  rewrite E. cbn [skip_spaces]. rewrite Hspace, Hplus, Hminus.
  rewrite digit_of_digit_char by assumption.
  rewrite <- E.
  pose proof (@read_digits_decimal 20 n 0 []) as R.
  rewrite app_nil_r in R. rewrite R by (unfold SIZE_MAX in Hn; simpl; lia).
  cbn [read_digits]. rewrite N.mul_0_l, N.add_0_l.
  rewrite (proj2 (N.ltb_ge _ _)) by exact Hn. reflexivity.
Qed.

Lemma fields_acknowledgement (info : StoredInfo) :
  ~ In comma (identifier info) ->
  fields (acknowledgement info)
  = [identifier info; decimal (numRows info); decimal (numCols info)].
Proof.
  intros Hno. unfold acknowledgement.
  rewrite fields_app_comma, fields_app_comma.
  rewrite !fields_without_comma
    by first [assumption | apply decimal_digits_without_comma].
  reflexivity.
Qed.

End Parser_more.

(** Fields after the third do not matter: an input with at least three
    fields gives the same descriptor whatever further fields are appended
    to it. *)
Theorem constructStoredInfo_ignores_further_fields
  (info : StoredInfo) (input more : std_string) :
  2 <= commas input ->
  constructStoredInfo info (input ++ comma :: more) = constructStoredInfo info input.
Proof.
  intros Hmany. rewrite !constructStoredInfo_fields, fields_app_comma.
  pose proof (fields_length input) as L.
  destruct (fields input) as [|r0 [|r1 [|r2 rs]]]; simpl in L; try lia.
  reflexivity.
Qed.

Lemma constructStoredInfo_ignores_further_fields_witness :
  constructStoredInfo {| identifier := []; numRows := 7; numCols := 9 |}
                      (literal "m1,10,20" ++ comma :: literal "30,x")
  = constructStoredInfo {| identifier := []; numRows := 7; numCols := 9 |}
                        (literal "m1,10,20").
Proof.
  apply (@constructStoredInfo_ignores_further_fields
           {| identifier := []; numRows := 7; numCols := 9 |}
           (literal "m1,10,20") (literal "30,x")).
  vm_compute. lia.
Defined.

(** Writing and parsing an acknowledgement is a round trip: for every
    descriptor whose identifier holds no comma and whose counts are
    [size_t] values, the text [identifier,numRows,numCols] with the counts
    in decimal parses to that descriptor, whatever the local variable held
    before. *)
Theorem constructStoredInfo_acknowledgement (info0 info : StoredInfo) :
  ~ In comma (identifier info) ->
  (numRows info <= SIZE_MAX)%N ->
  (numCols info <= SIZE_MAX)%N ->
  constructStoredInfo info0 (acknowledgement info) = Returns info.
Proof.
  intros Hno Hrows Hcols.
  rewrite constructStoredInfo_fields, fields_acknowledgement by assumption.
  rewrite !sscanf_zu_decimal by assumption.
  destruct info; reflexivity.
Qed.

Lemma constructStoredInfo_acknowledgement_witness :
  constructStoredInfo
    {| identifier := []; numRows := 7; numCols := 9 |}
    (acknowledgement
       {| identifier := literal "m1"; numRows := 18446744073709551615; numCols := 0 |})
  = Returns {| identifier := literal "m1"; numRows := 18446744073709551615; numCols := 0 |}.
Proof.
  apply (@constructStoredInfo_acknowledgement
           {| identifier := []; numRows := 7; numCols := 9 |}
           {| identifier := literal "m1"; numRows := 18446744073709551615;
              numCols := 0 |}).
  - vm_compute. intuition discriminate.
  - vm_compute. discriminate.
  - vm_compute. discriminate.
Defined.



(** ** More on the aggregation kernels *)

Section Loads_out_of_range.

Context {VT A : Type}.
Variable g : A -> VT -> A.
Variable values : list VT.

(** A counted loop of loads that is told to go past the end of the array
    does so. *)
Lemma for_range_load_past_end (base : nat) :
  forall n i a, 0 < n -> length values < base + i + n ->
    for_range i n (fun k a => x <- load values (base + k) ;; Returns (g a x)) a
    = OutOfBounds.
Proof.
  induction n as [|n IH]; intros i a Hpos Hn; [lia|cbn [for_range]].
  unfold load at 1. destruct (nth_error values (base + i)) as [x|] eqn:E;
    cbn [bind]; [|reflexivity].
  assert (base + i < length values) by (apply nth_error_Some; congruence).
  apply IH; lia.
Qed.

End Loads_out_of_range.

Section Kernels_out_of_range.

Context {VTArg VTRes : Type} `{ValueType VTRes} `{StaticCast VTArg VTRes}.
Variable ctx : DaphneContext.

Lemma dense_rows_loop_past_end (func : EwBinaryScaFuncPtr VTRes)
      (arg : DenseMatrix.t VTArg) :
  0 < DenseMatrix.getNumCols arg ->
  forall n r0 agg,
    (exists r, r0 <= r < r0 + n
               /\ length (DenseMatrix.getValues arg)
                  < r * DenseMatrix.getRowSkip arg + DenseMatrix.getNumCols arg) ->
    for_range r0 n
      (fun _ '(agg, valuesArg) =>
         agg <- for_range 0 (DenseMatrix.getNumCols arg)
                  (fun c agg =>
                     x <- load (DenseMatrix.getValues arg) (valuesArg + c) ;;
                     Returns (func agg (static_cast x) ctx))
                  agg ;;
         Returns (agg, valuesArg + DenseMatrix.getRowSkip arg))
      (agg, r0 * DenseMatrix.getRowSkip arg)
    = OutOfBounds.
Proof.
  intros Hcols. induction n as [|n IH]; intros r0 agg (r & Hr & Hbad); [lia|].
  cbn [for_range].
  destruct (Nat.le_gt_cases
              (r0 * DenseMatrix.getRowSkip arg + DenseMatrix.getNumCols arg)
              (length (DenseMatrix.getValues arg))) as [Hin|Hout].
  - pose proof (for_range_load (combine ctx func) (DenseMatrix.getValues arg)
                  (r0 * DenseMatrix.getRowSkip arg) (DenseMatrix.getNumCols arg) 0 agg)
      as L.
    unfold combine at 1 in L. rewrite L by lia. clear L. cbn [bind].
    replace (r0 * DenseMatrix.getRowSkip arg + DenseMatrix.getRowSkip arg)
      with (S r0 * DenseMatrix.getRowSkip arg) by lia.
    apply IH. exists r. split; [|exact Hbad].
    assert (r <> r0) by (intros ->; lia). lia.
  - pose proof (@for_range_load_past_end _ _ (combine ctx func)
                  (DenseMatrix.getValues arg)
                  (r0 * DenseMatrix.getRowSkip arg) (DenseMatrix.getNumCols arg) 0 agg)
      as L.
    unfold combine at 1 in L. rewrite L by lia. reflexivity.
Qed.

End Kernels_out_of_range.

(** For a pure binary reduction over a dense matrix (its rows in place) the
    result is the left fold of the reduction's function over the cells,
    row by row, starting from the neutral element; a matrix without cells
    gives the neutral element itself. *)
Theorem dense_apply_pure_fold
  {VTArg VTRes : Type} `{ValueType VTRes} `{StaticCast VTArg VTRes}
  (opCode : AggOpCode.t) (arg : DenseMatrix.t VTArg) (ctx : DaphneContext) :
  isPureBinaryReduction opCode = true ->
  dense_valid arg ->
  exists op neutral,
    getBinaryOpCode opCode = Returns op
    /\ getNeutral opCode = Returns neutral
    /\ AggAll_DenseMatrix.apply opCode arg ctx =
         Returns (fold_left (fun agg x => getEwBinaryScaFuncPtr op agg (static_cast x) ctx)
                            (dense_cells arg) neutral).
Proof.
  intros Hpure Hvalid. rewrite (dense_apply_loops ctx _ Hvalid).
  destruct opCode; try discriminate Hpure;
    cbn [isPureBinaryReduction getBinaryOpCode getNeutral bind];
    do 2 eexists; repeat split; reflexivity.
Qed.

Lemma dense_apply_pure_fold_witness :
  exists op neutral,
    getBinaryOpCode AggOpCode.MAX = Returns op
    /\ getNeutral AggOpCode.MAX = Returns neutral
    /\ AggAll_DenseMatrix.apply AggOpCode.MAX dense_2x3 daphne_context =
         Returns (fold_left
                    (fun agg x => getEwBinaryScaFuncPtr op agg (static_cast x) daphne_context)
                    (dense_cells dense_2x3) neutral).
Proof.
  exact (@dense_apply_pure_fold float float _ _ AggOpCode.MAX dense_2x3 daphne_context
           eq_refl dense_2x3_valid).
Defined.

(** Padding never shows: two dense matrices (rows in place) with the same
    numbers of rows and columns and the same cells give the same outcome
    for every op-code, whatever their row strides and whatever lies between
    their rows. *)
Theorem dense_apply_ignores_padding
  {VTArg VTRes : Type} `{ValueType VTRes} `{StaticCast VTArg VTRes}
  (opCode : AggOpCode.t) (arg1 arg2 : DenseMatrix.t VTArg) (ctx : DaphneContext) :
  dense_valid arg1 -> dense_valid arg2 ->
  DenseMatrix.getNumRows arg1 = DenseMatrix.getNumRows arg2 ->
  DenseMatrix.getNumCols arg1 = DenseMatrix.getNumCols arg2 ->
  dense_cells arg1 = dense_cells arg2 ->
  AggAll_DenseMatrix.apply (VTRes := VTRes) opCode arg1 ctx
  = AggAll_DenseMatrix.apply opCode arg2 ctx.
Proof.
  intros Hvalid1 Hvalid2 Hrows Hcols Hcells.
  rewrite (dense_apply_loops ctx _ Hvalid1), (dense_apply_loops ctx _ Hvalid2).
  now rewrite Hrows, Hcols, Hcells.
Qed.

Lemma dense_2x3_padded_valid : dense_valid dense_2x3_padded.
Proof.
  intros r Hr. simpl in *.
  destruct r as [|[|r]]; simpl; lia.
Defined.

Lemma dense_apply_ignores_padding_witness :
  AggAll_DenseMatrix.apply (VTRes := float) AggOpCode.MEAN dense_2x3 daphne_context
  = AggAll_DenseMatrix.apply AggOpCode.MEAN dense_2x3_padded daphne_context.
Proof.
  exact (@dense_apply_ignores_padding float float _ _ AggOpCode.MEAN
           dense_2x3 dense_2x3_padded daphne_context
           dense_2x3_valid dense_2x3_padded_valid eq_refl eq_refl eq_refl).
Defined.

(** The dense kernel checks no bound: when some cell of the matrix lies
    beyond the values, every op-code, STDDEV included, ends in a read past
    the end of the values. *)
Theorem dense_apply_reads_past_values
  {VTArg VTRes : Type} `{ValueType VTRes} `{StaticCast VTArg VTRes}
  (opCode : AggOpCode.t) (arg : DenseMatrix.t VTArg) (ctx : DaphneContext)
  (r c : nat) :
  r < DenseMatrix.getNumRows arg ->
  c < DenseMatrix.getNumCols arg ->
  length (DenseMatrix.getValues arg) <= r * DenseMatrix.getRowSkip arg + c ->
  AggAll_DenseMatrix.apply (VTRes := VTRes) opCode arg ctx = OutOfBounds.
Proof.
  intros Hr Hc Hbeyond. unfold AggAll_DenseMatrix.apply. cbv zeta.
  assert (L : forall func (agg : VTRes),
             for_range 0 (DenseMatrix.getNumRows arg)
               (fun _ '(agg, valuesArg) =>
                  agg <- for_range 0 (DenseMatrix.getNumCols arg)
                           (fun c agg =>
                              x <- load (DenseMatrix.getValues arg) (valuesArg + c) ;;
                              Returns (func agg (static_cast x) ctx))
                           agg ;;
                  Returns (agg, valuesArg + DenseMatrix.getRowSkip arg))
               (agg, 0)
             = OutOfBounds).
  { intros func agg.
    apply (@dense_rows_loop_past_end VTArg VTRes _ ctx func arg);
      [lia | exists r; split; lia]. }
  destruct opCode; cbn [isPureBinaryReduction getBinaryOpCode getNeutral bind];
    rewrite L; reflexivity.
Qed.

Lemma dense_apply_reads_past_values_witness :
  AggAll_DenseMatrix.apply (VTRes := float) AggOpCode.STDDEV dense_2x3_short
                           daphne_context = OutOfBounds.
Proof.
  apply (@dense_apply_reads_past_values float float _ _ AggOpCode.STDDEV
           dense_2x3_short daphne_context 1 2); simpl; lia.
Defined.

(** MEAN over a CSR matrix (its values in place) is the sum of the stored
    values, folded from the first of them, divided by the [size_t] product
    of the row and column counts, which is the number of cells only while
    that is below [2^64]; the cells that are not stored are never combined
    in, and a matrix that stores nothing gives 0 + 0 divided by that
    product. *)
Theorem csr_apply_MEAN
  {VTArg VTRes : Type} `{ValueType VTRes} `{StaticCast VTArg VTRes}
  (arg : CSRMatrix.t VTArg) (ctx : DaphneContext) :
  csr_valid arg ->
  AggAll_CSRMatrix.apply AggOpCode.MEAN arg ctx =
    Returns
      (vt_div_size_t
         match csr_stored arg with
         | [] => vt_add vt_zero vt_zero
         | v0 :: rest =>
             fold_left (fun agg x => vt_add agg (static_cast x)) rest (static_cast v0)
         end
         (size_t_mul (CSRMatrix.getNumRows arg) (CSRMatrix.getNumCols arg))).
Proof.
  intros Hvalid. unfold AggAll_CSRMatrix.apply.
  cbn [isPureBinaryReduction getBinaryOpCode bind].
  rewrite (aggArray_fold ctx _ _ _ _ _ Hvalid). fold (csr_stored arg).
  destruct (csr_stored arg); reflexivity.
Qed.

Lemma csr_apply_MEAN_witness :
  AggAll_CSRMatrix.apply AggOpCode.MEAN csr_10_cells daphne_context =
    Returns
      (vt_div_size_t
         match csr_stored csr_10_cells with
         | [] => vt_add vt_zero vt_zero
         | v0 :: rest =>
             fold_left (fun agg x => vt_add agg (static_cast x)) rest (static_cast v0)
         end
         (size_t_mul 2 5)).
Proof.
  exact (@csr_apply_MEAN float float _ _ csr_10_cells daphne_context csr_10_cells_valid).
Defined.

(** The CSR kernel checks no bound either: when the matrix announces more
    non-zeros than its value array holds, every op-code ends in a read past
    the end of the array. *)
Theorem csr_apply_reads_past_values
  {VTArg VTRes : Type} `{ValueType VTRes} `{StaticCast VTArg VTRes}
  (opCode : AggOpCode.t) (arg : CSRMatrix.t VTArg) (ctx : DaphneContext) :
  length (CSRMatrix.getValues0 arg) < CSRMatrix.getNumNonZeros arg ->
  AggAll_CSRMatrix.apply (VTRes := VTRes) opCode arg ctx = OutOfBounds.
Proof.
  intros Hshort.
  assert (L : forall numCells func sparseSafe (neutral : VTRes),
             AggAll_CSRMatrix.aggArray (CSRMatrix.getValues0 arg)
               (CSRMatrix.getNumNonZeros arg) numCells func sparseSafe neutral ctx
             = OutOfBounds).
  { intros numCells func sparseSafe neutral. unfold AggAll_CSRMatrix.aggArray.
    destruct (CSRMatrix.getNumNonZeros arg) as [|n]; [lia|].
    cbn [Nat.eqb negb].
    destruct (CSRMatrix.getValues0 arg) as [|v0 vs] eqn:E; [reflexivity|].
    cbn [load nth_error bind]. replace (S n - 1) with n by lia.
    pose proof (@for_range_load_past_end _ _ (combine ctx func) (v0 :: vs) 0 n 1
                  (static_cast v0)) as P.
    cbn [Nat.add] in P. unfold combine at 1 in P.
    rewrite P by (simpl in *; lia). reflexivity. }
  unfold AggAll_CSRMatrix.apply.
  destruct opCode; cbn [isPureBinaryReduction getBinaryOpCode getNeutral bind];
    rewrite L; reflexivity.
Qed.

Lemma csr_apply_reads_past_values_witness :
  AggAll_CSRMatrix.apply (VTRes := float) AggOpCode.SUM csr_short daphne_context
  = OutOfBounds.
Proof.
  apply (@csr_apply_reads_past_values float float _ _ AggOpCode.SUM
           csr_short daphne_context).
  simpl. lia.
Defined.

(** MEAN is SUM divided by the number of cells, in both kernels and for
    every matrix: each runs for MEAN the very summation it runs for SUM,
    from zero and without a combine for cells that are not stored, and
    divides what that returns by rows x cols. *)
Theorem apply_MEAN_is_SUM_divided
  {VTArg VTRes : Type} `{ValueType VTRes} `{StaticCast VTArg VTRes}
  (dense : DenseMatrix.t VTArg) (csr : CSRMatrix.t VTArg) (ctx : DaphneContext) :
  AggAll_DenseMatrix.apply AggOpCode.MEAN dense ctx =
    (sum <- AggAll_DenseMatrix.apply AggOpCode.SUM dense ctx ;;
     Returns (vt_div_size_t sum
                (size_t_mul (DenseMatrix.getNumCols dense) (DenseMatrix.getNumRows dense))))
  /\ AggAll_CSRMatrix.apply AggOpCode.MEAN csr ctx =
    (sum <- AggAll_CSRMatrix.apply AggOpCode.SUM csr ctx ;;
     Returns (vt_div_size_t sum
                (size_t_mul (CSRMatrix.getNumRows csr) (CSRMatrix.getNumCols csr)))).
Proof.
  split.
  - unfold AggAll_DenseMatrix.apply.
    cbn [isPureBinaryReduction getBinaryOpCode getNeutral bind AggOpCode.eqb].
    match goal with
    | |- bind ?loop _ = _ => destruct loop as [[agg valuesArg]| |]; reflexivity
    end.
  - unfold AggAll_CSRMatrix.apply.
    cbn [isPureBinaryReduction getBinaryOpCode getNeutral bind AggOpCode.eqb isSparseSafe].
    reflexivity.
Qed.

(** A length from [2^31] up to [2^32] turns negative in the [int] that
    [distributeWithTag] sends and counts with: both sends still go out, the
    first carrying the length less [2^32], the second with that negative
    count. *)
Theorem distributeWithTag_negative_count
  (category : TypesOfMessages) (messageLength : N) (data : list byte) (rank : Z)
  (sent : list MPI_Send) :
  rank <> COORDINATOR ->
  (2 ^ 31 <= messageLength < 2 ^ 32)%N ->
  exists sizeTag dataTag,
    distributeWithTag category messageLength data rank sent =
      sent ++ [ {| buf := address_of_int (Z.of_N messageLength - 2 ^ 32); count := 1;
                   datatype := MPI_INT; dest := rank; tag := sizeTag |};
                {| buf := data_pointer data; count := Z.of_N messageLength - 2 ^ 32;
                   datatype := MPI_UNSIGNED_CHAR; dest := rank; tag := dataTag |} ]
    /\ (Z.of_N messageLength - 2 ^ 32 < 0)%Z.
Proof.
  intros Hrank Hlen.
  rewrite distributeWithTag_worker by assumption. cbv zeta.
  assert (E : int_of_size_t messageLength = (Z.of_N messageLength - 2 ^ 32)%Z).
  { unfold int_of_size_t.
    replace (Z.of_N messageLength + 2 ^ 31)%Z
      with ((Z.of_N messageLength - 2 ^ 31) + 1 * 2 ^ 32)%Z by lia.
    rewrite Z.mod_add by lia. rewrite Z.mod_small by lia. lia. }
  rewrite E. do 2 eexists. split; [reflexivity|lia].
Qed.

Lemma distributeWithTag_negative_count_witness :
  exists sizeTag dataTag,
    distributeWithTag DATA (2 ^ 31) payload_2GiB 1 [] =
      [ {| buf := address_of_int (-2147483648); count := 1;
           datatype := MPI_INT; dest := 1; tag := sizeTag |};
        {| buf := data_pointer payload_2GiB; count := -2147483648;
           datatype := MPI_UNSIGNED_CHAR; dest := 1; tag := dataTag |} ]
    /\ (Z.of_N (2 ^ 31) - 2 ^ 32 < 0)%Z.
Proof.
  apply (@distributeWithTag_negative_count DATA (2 ^ 31) payload_2GiB 1 []).
  - discriminate.
  - lia.
Defined.
